(** * polymarket-bot: the bid calculator, the order dispatcher, the
      configuration check and the market helpers, embedded from
      [bot.py], [config.py] and [helpers/markets.py].

    The program computes its bid with Python's [decimal.Decimal] under the
    default context (28 digits, ROUND_HALF_EVEN, Emin = -999999,
    Emax = 999999, traps on InvalidOperation, DivisionByZero and Overflow).
    The first part of this file is a model of the part of that arithmetic
    the program uses: construction from [str(float)], [+], [quantize] with
    ROUND_DOWN, [>] and [>=].  The second part embeds the program. *)

From Stdlib Require Import ZArith QArith Qpower Bool List String Ascii Lia.
From Stdlib Require Import DecimalString Sorted.
Import ListNotations.
Local Open Scope Z_scope.

(* ================================================================== *)
(** ** Exceptions, context state and the monad of the embedding        *)
(* ================================================================== *)

(** The signals of the decimal module.  A raised signal always sets its
    flag in the context; it becomes an exception when it is trapped. *)
Inductive signal :=
| Clamped | DivisionByZero | Inexact | InvalidOperation
| Overflow | Rounded | Subnormal | Underflow.

(** The traps of the default context. *)
Definition traps (s : signal) : bool :=
  match s with
  | InvalidOperation | DivisionByZero | Overflow => true
  | _ => false
  end.

Inductive exception :=
| DecimalException (s : signal)      (* decimal.InvalidOperation, decimal.Overflow *)
| ValueError (msg : string)          (* raised by Config.validate *)
| ClientError (msg : string).        (* whatever the trading client raises *)

Inductive result (A : Type) :=
| Return (a : A)
| Raise (e : exception).
Arguments Return {A} a.
Arguments Raise {A} e.

(** A finite or special decimal: sign, coefficient and exponent as
    [Decimal.as_tuple()] shows them.  [Finite s c e] denotes
    (-1)^s * c * 10^e; the coefficient and the exponent are unbounded,
    as for a [Decimal] built from a string. *)
Inductive Decimal :=
| Finite (sign : bool) (int : N) (exp : Z)
| Infinity (sign : bool)
| NaN (signaling : bool).

(** A Python float, carried by the numeral [str()] prints for it: the
    shortest decimal string that reads back as the same float, or
    [inf], [-inf], [nan].  The program only ever looks at its floats
    through [str()] and through comparison. *)
Inductive float :=
| float_finite (sign : bool) (digits : N) (exp : Z)
| float_inf (sign : bool)
| float_nan.

(** The pieces of an f-string, kept apart so that no number formatting
    has to be modelled. *)
Inductive piece :=
| Lit (s : string)
| PStr (s : string)
| PDecimal (d : Decimal)
| PFloat (x : float)
| PPrice (d : Decimal)
| PBool (b : bool)
| PResponse (r : string).

Record OrderArgs := mkOrderArgs
  { oa_token_id : string; oa_price : Decimal; oa_size : float; oa_side : string }.

(** What the process does to the outside world. *)
Inductive event :=
| Print (line : list piece)
| NewClient (host : string) (key : string) (chain_id : Z) (funder : string)
| CreateOrDeriveApiCreds
| SetApiCreds (creds : string)
| GetOrderBook (token_id : string)
| GetTickSize (token_id : string)
| CreateOrder (args : OrderArgs)
| PostOrder (signed_order : string) (order_type : string)
| PrintTraceback.

(** The mutable state a run can touch: the flags of the decimal context
    and the outside world, as the sequence of events so far. *)
Record state := mkState { flags : list signal; log : list event }.

Definition M (A : Type) : Type := state -> result A * state.

Definition ret {A} (a : A) : M A := fun st => (Return a, st).

Definition bind {A B} (m : M A) (f : A -> M B) : M B :=
  fun st => match m st with
            | (Return a, st') => f a st'
            | (Raise e, st') => (Raise e, st')
            end.

Definition throw {A} (e : exception) : M A := fun st => (Raise e, st).

(** [try: m except Exception: h] *)
Definition try_except {A} (m : M A) (h : exception -> M A) : M A :=
  fun st => match m st with
            | (Return a, st') => (Return a, st')
            | (Raise e, st') => h e st'
            end.

Notation "x <- m ;; k" := (bind m (fun x => k))
  (at level 61, m at next level, right associativity).
Notation "m ;;; k" := (bind m (fun _ => k))
  (at level 61, right associativity).

Definition emit (ev : event) : M unit :=
  fun st => (Return tt, mkState (flags st) (log st ++ [ev])).

Definition print (line : list piece) : M unit := emit (Print line).

(** [context._raise_error]: set the flag, raise when trapped. *)
Definition raise_error (s : signal) : M unit :=
  fun st =>
    let st' := mkState (s :: flags st) (log st) in
    if traps s then (Raise (DecimalException s), st') else (Return tt, st').

Definition when (b : bool) (m : M unit) : M unit := if b then m else ret tt.

(* ================================================================== *)
(** ** The decimal arithmetic the program uses                         *)
(* ================================================================== *)

Definition prec : Z := 28.
Definition Emax : Z := 999999.
Definition Emin : Z := -999999.
Definition Etiny : Z := Emin - prec + 1.
Definition Etop : Z := Emax - prec + 1.

Inductive rounding := ROUND_DOWN | ROUND_HALF_EVEN.

Fixpoint ndigits_aux (fuel : nat) (c : Z) : Z :=
  match fuel with
  | O => 1
  | S fuel' => if c <? 10 then 1 else 1 + ndigits_aux fuel' (c / 10)
  end.

(** [len(str(c))] for a coefficient [c >= 0]. *)
Definition ndigits (c : Z) : Z := ndigits_aux (Z.to_nat (Z.log2 c)) c.

Definition signed (s : bool) (c : N) : Z :=
  if s then - Z.of_N c else Z.of_N c.

(** [Decimal.adjusted()] of a finite decimal. *)
Definition adjusted (c : N) (e : Z) : Z := e + ndigits (Z.of_N c) - 1.

(** The [_round_*] functions, on a coefficient [c] of which the last
    [k] digits are dropped: is the kept part incremented (their result
    1), and is anything lost at all (their result not 0). *)
Definition round_up (r : rounding) (c k : Z) : bool :=
  match r with
  | ROUND_DOWN => false
  | ROUND_HALF_EVEN =>
      let q := c / 10 ^ k in
      let m := c mod 10 ^ k in
      (10 ^ k <? 2 * m) || ((2 * m =? 10 ^ k) && Z.odd q)
  end.

Definition round_changed (c k : Z) : bool := negb (c mod 10 ^ k =? 0).

(** [Decimal._rescale(exp, rounding)] on a finite decimal. *)
Definition Decimal_rescale (s : bool) (c : N) (e : Z) (exp : Z) (r : rounding)
  : Decimal :=
  if (c =? 0)%N then Finite s 0 exp
  else if exp <=? e then Finite s (Z.to_N (Z.of_N c * 10 ^ (e - exp))) exp
  else
    let k := exp - e in
    let coeff := Z.of_N c / 10 ^ k in
    Finite s (Z.to_N (if round_up r (Z.of_N c) k then coeff + 1 else coeff)) exp.

(** [Decimal._fix(context)]: round to the context's precision and
    exponent range.  The library works on the string of digits; here
    dropping the last [k] digits is the quotient by [10 ^ k], and
    [coeff[:-1]] after a carry is the quotient by 10.  When more digits
    are dropped than the coefficient has, the library rounds
    [1E(exp_min-1)] instead, which gives the same zero. *)
Definition Decimal_fix (d : Decimal) : M Decimal :=
  match d with
  | NaN _ | Infinity _ => ret d
  | Finite s c e =>
      if (c =? 0)%N then
        let new_exp := Z.min (Z.max e Etiny) Emax in
        if new_exp =? e then ret d
        else raise_error Clamped ;;; ret (Finite s 0 new_exp)
      else
        let exp_min := ndigits (Z.of_N c) + e - prec in
        if exp_min >? Etop then
          raise_error Overflow ;;;
          raise_error Inexact ;;;
          raise_error Rounded ;;;
          ret (Infinity s)
        else
          let self_is_subnormal := exp_min <? Etiny in
          let exp_min := if self_is_subnormal then Etiny else exp_min in
          if e <? exp_min then
            let k := exp_min - e in
            let coeff := Z.of_N c / 10 ^ k in
            let up := round_up ROUND_HALF_EVEN (Z.of_N c) k in
            let changed := round_changed (Z.of_N c) k in
            let coeff := if up then coeff + 1 else coeff in
            let carry := up && (ndigits coeff >? prec) in
            let coeff := if carry then coeff / 10 else coeff in
            let exp_min := if carry then exp_min + 1 else exp_min in
            ans <- (if exp_min >? Etop
                    then raise_error Overflow ;;; ret (Infinity s)
                    else ret (Finite s (Z.to_N coeff) exp_min)) ;;
            when (changed && self_is_subnormal) (raise_error Underflow) ;;;
            when self_is_subnormal (raise_error Subnormal) ;;;
            when changed (raise_error Inexact) ;;;
            raise_error Rounded ;;;
            when (coeff =? 0) (raise_error Clamped) ;;;
            ret ans
          else
            when self_is_subnormal (raise_error Subnormal) ;;;
            ret d
  end.

(** [Decimal._check_nans]: a signaling NaN signals InvalidOperation, a
    quiet one is the result.  Sign and payload of a NaN are not kept:
    nothing the program does depends on them. *)
Definition check_nans (a b : Decimal) : option (M Decimal) :=
  match a, b with
  | NaN true, _ | _, NaN true =>
      Some (raise_error InvalidOperation ;;; ret (NaN false))
  | NaN false, _ | _, NaN false => Some (ret (NaN false))
  | _, _ => None
  end.

(** [Decimal.__add__]: the exact sum, written at the smaller of the two
    exponents, then rounded by [_fix].  (For two non-zero operands far
    apart the library replaces the smaller one by a digit below the
    rounding position before it adds, [_normalize]; the rounded result
    is that of the exact sum.) *)
Definition Decimal_add (a b : Decimal) : M Decimal :=
  match check_nans a b with
  | Some m => m
  | None =>
      match a, b with
      | Infinity s1, Infinity s2 =>
          if Bool.eqb s1 s2 then ret a
          else raise_error InvalidOperation ;;; ret (NaN false)
      | Infinity _, _ => ret a
      | _, Infinity _ => ret b
      | Finite s1 c1 e1, Finite s2 c2 e2 =>
          let exp := Z.min e1 e2 in
          if (c1 =? 0)%N && (c2 =? 0)%N then
            Decimal_fix (Finite (s1 && s2) 0 exp)
          else if (c1 =? 0)%N then
            let exp := Z.max exp (e2 - prec - 1) in
            Decimal_fix (Decimal_rescale s2 c2 e2 exp ROUND_HALF_EVEN)
          else if (c2 =? 0)%N then
            let exp := Z.max exp (e1 - prec - 1) in
            Decimal_fix (Decimal_rescale s1 c1 e1 exp ROUND_HALF_EVEN)
          else
            let z := signed s1 c1 * 10 ^ (e1 - exp)
                     + signed s2 c2 * 10 ^ (e2 - exp) in
            Decimal_fix (Finite (z <? 0) (Z.to_N (Z.abs z)) exp)
      | _, _ => ret (NaN false)
      end
  end.

(** [Decimal.quantize(exp, rounding)]: the value of [self] at the
    exponent of [exp]. *)
Definition Decimal_quantize (self exp : Decimal) (r : rounding) : M Decimal :=
  match check_nans self exp with
  | Some m => m
  | None =>
      match self, exp with
      | Infinity _, Infinity _ => ret self
      | Infinity _, _ | _, Infinity _ =>
          raise_error InvalidOperation ;;; ret (NaN false)
      | Finite s c e, Finite _ _ ee =>
          if negb ((Etiny <=? ee) && (ee <=? Emax)) then
            raise_error InvalidOperation ;;; ret (NaN false)
          else if (c =? 0)%N then Decimal_fix (Finite s 0 ee)
          else if adjusted c e >? Emax then
            raise_error InvalidOperation ;;; ret (NaN false)
          else if adjusted c e - ee + 1 >? prec then
            raise_error InvalidOperation ;;; ret (NaN false)
          else
            match Decimal_rescale s c e ee r with
            | Finite s' c' e' =>
                if adjusted c' e' >? Emax then
                  raise_error InvalidOperation ;;; ret (NaN false)
                else if ndigits (Z.of_N c') >? prec then
                  raise_error InvalidOperation ;;; ret (NaN false)
                else
                  when (negb (c' =? 0)%N && (adjusted c' e' <? Emin))
                       (raise_error Subnormal) ;;;
                  when (e <? e')
                       (when (round_changed (Z.of_N c) (e' - e))
                             (raise_error Inexact) ;;;
                        raise_error Rounded) ;;;
                  Decimal_fix (Finite s' c' e')
            | ans => ret ans
            end
      | _, _ => ret (NaN false)
      end
  end.

Definition isnan (d : Decimal) : bool :=
  match d with NaN _ => true | _ => false end.

(** [Decimal._isinfinity()]: 1, -1 or 0. *)
Definition isinfinity (d : Decimal) : Z :=
  match d with
  | Infinity false => 1
  | Infinity true => -1
  | _ => 0
  end.

(** [Decimal._cmp]: the numerical order, both zeros equal. *)
Definition Decimal_cmp (a b : Decimal) : comparison :=
  match a, b with
  | Finite s1 c1 e1, Finite s2 c2 e2 =>
      let m := Z.min e1 e2 in
      (signed s1 c1 * 10 ^ (e1 - m) ?= signed s2 c2 * 10 ^ (e2 - m))
  | _, _ => (isinfinity a ?= isinfinity b)
  end.

(** [Decimal.__gt__] and [Decimal.__ge__]: an ordering comparison with
    a NaN signals InvalidOperation. *)
Definition Decimal_gt (a b : Decimal) : M bool :=
  if isnan a || isnan b then raise_error InvalidOperation ;;; ret false
  else ret (match Decimal_cmp a b with Gt => true | _ => false end).

Definition Decimal_ge (a b : Decimal) : M bool :=
  if isnan a || isnan b then raise_error InvalidOperation ;;; ret false
  else ret (match Decimal_cmp a b with Lt => false | _ => true end).

(** [Decimal(str(x))] for a float [x]: exact, no context involved. *)
Definition Decimal_of_str (x : float) : Decimal :=
  match x with
  | float_finite s c e => Finite s c e
  | float_inf s => Infinity s
  | float_nan => NaN false
  end.

(** [Decimal.as_tuple().exponent] *)
Inductive tuple_exponent := ExpInt (e : Z) | ExpF | Expn | ExpN.

Definition as_tuple_exponent (d : Decimal) : tuple_exponent :=
  match d with
  | Finite _ _ e => ExpInt e
  | Infinity _ => ExpF
  | NaN false => Expn
  | NaN true => ExpN
  end.

(** The rational a finite decimal denotes. *)
Definition value (s : bool) (c : N) (e : Z) : Q :=
  (inject_Z (signed s c) * Qpower (inject_Z 10) e)%Q.

(* ================================================================== *)
(** ** bot.py: calculate_new_bid                                       *)
(* ================================================================== *)

(** The function returns [float(new_bid)]; the embedding returns
    [new_bid], the decimal that the conversion starts from. *)
Definition calculate_new_bid (best_bid : float) (tick_size : Decimal)
           (max_price : float) : M (option Decimal) :=
  let best_bid_decimal := Decimal_of_str best_bid in
  let max_price_decimal := Decimal_of_str max_price in
  new_bid <- Decimal_add best_bid_decimal tick_size ;;
  let precision := as_tuple_exponent tick_size in
  new_bid <- Decimal_quantize new_bid tick_size ROUND_DOWN ;;
  print [Lit "Calculated new bid: $"; PDecimal new_bid] ;;;
  exceeds <- Decimal_gt new_bid max_price_decimal ;;
  if exceeds then
    print [Lit "New bid $"; PDecimal new_bid; Lit " exceeds max price $";
           PFloat max_price; Lit ". Skipping."] ;;;
    ret None
  else
    at_max <- Decimal_ge best_bid_decimal max_price_decimal ;;
    if at_max then
      print [Lit "Best bid $"; PFloat best_bid;
             Lit " already at or above max price $"; PFloat max_price;
             Lit ". Skipping."] ;;;
      ret None
    else ret (Some new_bid).

(* ================================================================== *)
(** ** The trading client, as far as bot.py calls it                   *)
(* ================================================================== *)

(** [py_clob_client.client.ClobClient]: the replies of the venue to the
    calls the bot makes.  Every call can fail with an exception of the
    client's own. *)
Record ClobClient := mkClobClient
  { create_or_derive_api_creds : result string;
    get_order_book : string -> result (list string);   (* the bid prices *)
    get_tick_size_reply : string -> result string;
    create_order : OrderArgs -> result string;
    post_order : string -> string -> result string }.

(** The library calls that read numbers: [ClobClient(...)],
    [float(str)] and [Decimal(str)]. *)
Record Library := mkLibrary
  { new_ClobClient : string -> string -> Z -> string -> result ClobClient;
    float_of_string : string -> option float;
    Decimal_of_string : string -> option Decimal }.

Definition lift {A} (r : result A) : M A := fun st => (r, st).

Definition call {A} (ev : event) (r : result A) : M A := emit ev ;;; lift r.

(* ================================================================== *)
(** ** config.py                                                       *)
(* ================================================================== *)

Record Config := mkConfig
  { HOST : string; CHAIN_ID : Z;
    PRIVATE_KEY : string; FUNDER_ADDRESS : string;
    MAX_BID_PRICE : float; ORDER_SIZE : float; DRY_RUN : bool }.

Definition startswith (s p : string) : bool := String.prefix p s.

Definition is_empty (s : string) : bool :=
  match s with EmptyString => true | _ => false end.

(** [x <= 0] on floats: false on nan. *)
Definition float_le_0 (x : float) : bool :=
  match x with
  | float_finite s c _ => s || (c =? 0)%N
  | float_inf s => s
  | float_nan => false
  end.

Definition nl : string := String (ascii_of_nat 10) EmptyString.

(** The list [errors] that [Config.validate] builds. *)
Definition validate_errors (cls : Config) : list string :=
  let errors := [] in
  let errors :=
    if is_empty (PRIVATE_KEY cls)
    then errors ++ ["POLYMARKET_PRIVATE_KEY is not set"%string]
    else if negb (startswith (PRIVATE_KEY cls) "0x")
    then errors ++ ["POLYMARKET_PRIVATE_KEY must start with '0x'"%string]
    else errors in
  let errors :=
    if is_empty (FUNDER_ADDRESS cls)
    then errors ++ ["POLYMARKET_FUNDER_ADDRESS is not set"%string]
    else if negb (startswith (FUNDER_ADDRESS cls) "0x")
    then errors ++ ["POLYMARKET_FUNDER_ADDRESS must start with '0x'"%string]
    else errors in
  let errors :=
    if float_le_0 (MAX_BID_PRICE cls)
    then errors ++ ["MAX_BID_PRICE must be positive"%string]
    else errors in
  let errors :=
    if float_le_0 (ORDER_SIZE cls)
    then errors ++ ["ORDER_SIZE must be positive"%string]
    else errors in
  errors.

Definition validate (cls : Config) : M unit :=
  let errors := validate_errors cls in
  match errors with
  | [] => ret tt
  | _ => throw (ValueError ("Configuration errors:" ++ nl ++ "  - "
                            ++ String.concat (nl ++ "  - ") errors))
  end.

(* ================================================================== *)
(** ** bot.py: the reader, the dispatcher and main                     *)
(* ================================================================== *)

Record Args := mkArgs
  { token_id : string;
    dry_run : option bool;        (* store_true with default None *)
    no_dry_run : bool;
    max_price : option float;
    size : option float }.

Definition rule : string := "==================================================".

Definition initialize_client (lib : Library) (cfg : Config) : M ClobClient :=
  print [Lit "Initializing Polymarket client..."] ;;;
  client <- call (NewClient (HOST cfg) (PRIVATE_KEY cfg) (CHAIN_ID cfg)
                            (FUNDER_ADDRESS cfg))
                 (new_ClobClient lib (HOST cfg) (PRIVATE_KEY cfg)
                                 (CHAIN_ID cfg) (FUNDER_ADDRESS cfg)) ;;
  print [Lit "Authenticating..."] ;;;
  creds <- call CreateOrDeriveApiCreds (create_or_derive_api_creds client) ;;
  emit (SetApiCreds creds) ;;;
  print [Lit "Authentication successful!"] ;;;
  ret client.

(** [x > y] on floats, through the numerals that denote them. *)
Definition float_gt (x y : float) : bool :=
  match x, y with
  | float_nan, _ | _, float_nan => false
  | _, _ => match Decimal_cmp (Decimal_of_str x) (Decimal_of_str y) with
            | Gt => true
            | _ => false
            end
  end.

(** [max(...)] of a non-empty sequence: the first of the largest. *)
Definition float_max (x : float) (xs : list float) : float :=
  fold_left (fun acc y => if float_gt y acc then y else acc) xs x.

Fixpoint floats_of_strings (lib : Library) (l : list string) : M (list float) :=
  match l with
  | [] => ret []
  | s :: l' =>
      match float_of_string lib s with
      | None => throw (ValueError "could not convert string to float")
      | Some x => xs <- floats_of_strings lib l' ;; ret (x :: xs)
      end
  end.

Definition get_best_bid (lib : Library) (client : ClobClient) (token_id : string)
  : M float :=
  print [Lit "Fetching order book for token: ";
         PStr (String.substring 0 20 token_id); Lit "..."] ;;;
  bids <- call (GetOrderBook token_id) (get_order_book client token_id) ;;
  match bids with
  | [] =>
      print [Lit "No existing bids on this market"] ;;;
      ret (float_finite false 0 (-1))
  | _ =>
      prices <- floats_of_strings lib bids ;;
      match prices with
      | [] => ret (float_finite false 0 (-1))
      | x :: xs =>
          let best_bid := float_max x xs in
          print [Lit "Current best bid: $"; PFloat best_bid] ;;;
          ret best_bid
      end
  end.

Definition get_tick_size (lib : Library) (client : ClobClient) (token_id : string)
  : M Decimal :=
  tick_size_str <- call (GetTickSize token_id)
                        (get_tick_size_reply client token_id) ;;
  match Decimal_of_string lib tick_size_str with
  | None => raise_error InvalidOperation ;;; ret (NaN false)
  | Some tick_size =>
      print [Lit "Tick size: $"; PDecimal tick_size] ;;;
      ret tick_size
  end.

(** [price] is the float that [calculate_new_bid] returned, carried by
    the decimal it was converted from. *)
Definition place_order (client : ClobClient) (token_id : string)
           (price : Decimal) (size : float) (dry_run : bool)
  : M (option string) :=
  print [] ;;;
  print [Lit rule] ;;;
  if dry_run then
    print [Lit "[DRY RUN] Would place order:"] ;;;
    print [Lit "  Token ID: "; PStr (String.substring 0 30 token_id); Lit "..."] ;;;
    print [Lit "  Side: BUY"] ;;;
    print [Lit "  Price: $"; PPrice price] ;;;
    print [Lit "  Size: "; PFloat size; Lit " shares"] ;;;
    print [Lit "  Type: GTC (Good Till Cancelled)"] ;;;
    print [Lit rule] ;;;
    ret None
  else
    print [Lit "Placing REAL order:"] ;;;
    print [Lit "  Token ID: "; PStr (String.substring 0 30 token_id); Lit "..."] ;;;
    print [Lit "  Side: BUY"] ;;;
    print [Lit "  Price: $"; PPrice price] ;;;
    print [Lit "  Size: "; PFloat size; Lit " shares"] ;;;
    print [Lit "  Type: GTC (Good Till Cancelled)"] ;;;
    print [Lit rule] ;;;
    let order_args := mkOrderArgs token_id price size "BUY" in
    print [Lit "Signing order..."] ;;;
    signed_order <- call (CreateOrder order_args) (create_order client order_args) ;;
    print [Lit "Submitting order..."] ;;;
    response <- call (PostOrder signed_order "GTC")
                     (post_order client signed_order "GTC") ;;
    print [] ;;;
    print [Lit "Order submitted successfully!"] ;;;
    print [Lit "Response: "; PResponse response] ;;;
    ret (Some response).

Definition signal_name (s : signal) : string :=
  match s with
  | Clamped => "Clamped" | DivisionByZero => "DivisionByZero"
  | Inexact => "Inexact" | InvalidOperation => "InvalidOperation"
  | Overflow => "Overflow" | Rounded => "Rounded"
  | Subnormal => "Subnormal" | Underflow => "Underflow"
  end.

(** [str(e)] of a caught exception. *)
Definition str_exception (e : exception) : string :=
  match e with
  | DecimalException s => "[<class 'decimal." ++ signal_name s ++ "'>]"
  | ValueError msg => msg
  | ClientError msg => msg
  end.

(** [main]: the parsed arguments and the class attributes of [Config]
    are its inputs; the result is the exit status. *)
Definition main (lib : Library) (cfg : Config) (args : Args) : M Z :=
  print [] ;;;
  print [Lit rule] ;;;
  print [Lit "  POLYMARKET BEST BID BOT"] ;;;
  print [Lit rule] ;;;
  print [] ;;;
  valid <- try_except (validate cfg ;;; ret true)
             (fun e => match e with
                       | ValueError msg =>
                           print [Lit "Configuration error: "; PStr msg] ;;;
                           ret false
                       | _ => throw e
                       end) ;;
  if negb valid then ret 1
  else
    let max_price := match max_price args with
                     | Some x => x
                     | None => MAX_BID_PRICE cfg
                     end in
    let order_size := match size args with
                      | Some x => x
                      | None => ORDER_SIZE cfg
                      end in
    let dry_run := if no_dry_run args then false
                   else match dry_run args with
                        | Some true => true
                        | _ => DRY_RUN cfg
                        end in
    print [Lit "Settings:"] ;;;
    print [Lit "  Token ID: "; PStr (String.substring 0 30 (token_id args));
           Lit "..."] ;;;
    print [Lit "  Max Price: $"; PFloat max_price] ;;;
    print [Lit "  Order Size: "; PFloat order_size; Lit " shares"] ;;;
    print [Lit "  Dry Run: "; PBool dry_run] ;;;
    print [] ;;;
    when (negb dry_run)
         (print [Lit "*** WARNING: DRY RUN IS DISABLED - REAL ORDERS WILL BE PLACED ***"] ;;;
          print []) ;;;
    try_except
      (client <- initialize_client lib cfg ;;
       print [] ;;;
       best_bid <- get_best_bid lib client (token_id args) ;;
       tick_size <- get_tick_size lib client (token_id args) ;;
       print [] ;;;
       new_bid <- calculate_new_bid best_bid tick_size max_price ;;
       match new_bid with
       | None =>
           print [] ;;;
           print [Lit "No order placed."] ;;;
           ret 0
       | Some new_bid =>
           place_order client (token_id args) new_bid order_size dry_run ;;;
           print [] ;;;
           print [Lit "Bot execution complete."] ;;;
           ret 0
       end)
      (fun e =>
         print [] ;;;
         print [Lit "Error: "; PStr (str_exception e)] ;;;
         emit PrintTraceback ;;;
         ret 1).

(** An event on the trading client: anything but printing. *)
Definition is_network (ev : event) : bool :=
  match ev with
  | Print _ | PrintTraceback => false
  | _ => true
  end.

(** An event of the order submission: creating, signing, posting. *)
Definition is_submission (ev : event) : bool :=
  match ev with
  | CreateOrder _ | PostOrder _ _ => true
  | _ => false
  end.

(* ================================================================== *)
(** ** The vocabulary of the statements                                *)
(* ================================================================== *)

(** The order of decimals as the program's own comparisons see it;
    nothing is ordered with a NaN. *)
Definition Dle (a b : Decimal) : Prop :=
  isnan a = false /\ isnan b = false /\ Decimal_cmp a b <> Gt.

Definition Dlt (a b : Decimal) : Prop :=
  isnan a = false /\ isnan b = false /\ Decimal_cmp a b = Lt.

Definition Dzero : Decimal := Finite false 0 0.





Definition st0 : state := mkState [] [].

Definition f_0_0 := float_finite false 0 (-1).
Definition f_0_002 := float_finite false 2 (-3).
Definition f_0_003 := float_finite false 3 (-3).
Definition f_0_049 := float_finite false 49 (-3).
Definition f_0_05 := float_finite false 5 (-2).
Definition tick_0_001 := Finite false 1 (-3).

(** [x > 0] on floats: false on nan. *)
Definition float_gt_0 (x : float) : bool :=
  match x with
  | float_finite s c _ => negb s && negb (c =? 0)%N
  | float_inf s => negb s
  | float_nan => false
  end.

(** A credential as [Config.validate] wants it: set, and starting
    with 0x. *)
Definition credential_ok (k : string) : bool :=
  negb (is_empty k) && startswith k "0x".

(** A configuration that is in order but for MAX_BID_PRICE, which is
    nan (the environment variable MAX_BID_PRICE set to nan). *)
Definition cfg_nan_max : Config :=
  mkConfig "https://clob.polymarket.com" 137 "0x01" "0x02"
           float_nan (float_finite false 50 (-1)) true.

(** A venue that answers: one bid at 0.002, tick size 0.001. *)
Definition sample_client : ClobClient :=
  mkClobClient (Return "creds"%string)
               (fun _ => Return ["0.002"%string])
               (fun _ => Return "0.001"%string)
               (fun _ => Return "signed"%string)
               (fun _ _ => Return "ack"%string).

Definition sample_library : Library :=
  mkLibrary (fun _ _ _ _ => Return sample_client)
            (fun s => if String.eqb s "0.002" then Some f_0_002 else None)
            (fun s => if String.eqb s "0.001" then Some tick_0_001 else None).

Definition sample_args : Args := mkArgs "123456" None false None None.

(** A computation whose result does not depend on the state it starts
    from: it may write flags and events, it reads none. *)
Definition blind {A} (m : M A) : Prop :=
  forall st st', fst (m st) = fst (m st').

(** A computation that only adds to the state: the flags it sets and
    the events it emits are those of its run from the empty state. *)
Definition appends {A} (m : M A) : Prop :=
  forall st,
    flags (snd (m st)) = flags (snd (m st0)) ++ flags st /\
    log (snd (m st)) = log st ++ log (snd (m st0)).

(** The exception of a trapped InvalidOperation. *)
(** The coefficient of a non-zero [c * 10^e] cut down to exponent [ee]
    with ROUND_DOWN. *)
Definition cut (c e ee : Z) : Z :=
  if ee <=? e then c * 10 ^ (e - ee) else c / 10 ^ (ee - e).


(** [m] run from any state adds the events [out] to the log, and its
    result and [out] satisfy [Post]. *)
Definition emits {A} (m : M A) (Post : result A -> list event -> Prop) : Prop :=
  forall st, exists out,
    log (snd (m st)) = log st ++ out /\ Post (fst (m st)) out.

(** The calls on the trading client among the events [out]. *)
Definition calls (out : list event) : list event := filter is_network out.

(** The settings [main] works with: command line over configuration. *)
Definition effective_max_price (cfg : Config) (args : Args) : float :=
  match max_price args with Some x => x | None => MAX_BID_PRICE cfg end.

Definition effective_order_size (cfg : Config) (args : Args) : float :=
  match size args with Some x => x | None => ORDER_SIZE cfg end.

Definition effective_dry_run (cfg : Config) (args : Args) : bool :=
  if no_dry_run args then false
  else match dry_run args with
       | Some true => true
       | _ => DRY_RUN cfg
       end.

(** The calls of a complete live run, in their order. *)
Definition session (cfg : Config) (tok creds : string) (oa : OrderArgs)
           (signed_order : string) : list event :=
  [NewClient (HOST cfg) (PRIVATE_KEY cfg) (CHAIN_ID cfg) (FUNDER_ADDRESS cfg);
   CreateOrDeriveApiCreds; SetApiCreds creds;
   GetOrderBook tok; GetTickSize tok;
   CreateOrder oa; PostOrder signed_order "GTC"].

Definition is_prefix {A} (l l' : list A) : Prop := exists rest, l ++ rest = l'.

(** The same, looking only at the calls on the client. *)
Definition emits_calls {A} (m : M A) (P : result A -> list event -> Prop) : Prop :=
  emits m (fun r o => P r (calls o)).

(** A computation that reaches the client in no way. *)
Definition quiet {A} (m : M A) : Prop := emits m (fun _ o => calls o = []).

(** What a run of [main] can be: its exit status [r] and its calls [c]
    on the client. *)
Definition run_shape (cfg : Config) (args : Args) (r : result Z)
           (c : list event) : Prop :=
  (exists creds p so,
     is_prefix c (session cfg (token_id args) creds
                          (mkOrderArgs (token_id args) p
                                       (effective_order_size cfg args) "BUY")
                          so)) /\
  (forall oa, In (CreateOrder oa) c ->
     effective_dry_run cfg args = false /\
     Dle (oa_price oa) (Decimal_of_str (effective_max_price cfg args))) /\
  (forall so ty, In (PostOrder so ty) c -> effective_dry_run cfg args = false) /\
  (r = Return 0 -> (5 <= List.length c)%nat) /\
  (r = Return 0 -> forall oa, In (CreateOrder oa) c ->
     exists so, In (PostOrder so "GTC") c).

(** A configuration in order, and a command line that turns dry-run
    off. *)
Definition cfg_sample : Config :=
  mkConfig "https://clob.polymarket.com" 137 "0x01" "0x02"
           f_0_05 (float_finite false 50 (-1)) true.

Definition live_args : Args := mkArgs "123456" None true None None.

(** A computation that adds nothing to the log. *)
Definition silent {A} (m : M A) : Prop := forall st, log (snd (m st)) = log st.

(* ================================================================== *)
(** ** config.py: Config.display                                       *)
(* ================================================================== *)

(** [s[-n:]]: the last [n] characters of [s], all of it when it is
    shorter. *)
Definition last_chars (n : nat) (s : string) : string :=
  let l := list_ascii_of_string s in
  string_of_list_ascii (skipn (List.length l - n) l).

(** [str(z)] for an int. *)
Definition str_int (z : Z) : string := NilZero.string_of_int (Z.to_int z).

Definition display (cls : Config) : M unit :=
  print [Lit "=== Configuration ==="] ;;;
  print [Lit "  Host: "; PStr (HOST cls)] ;;;
  print [Lit "  Chain ID: "; PStr (str_int (CHAIN_ID cls))] ;;;
  print [Lit "  Private Key: "; PStr "**********"; Lit "...";
         PStr (if is_empty (PRIVATE_KEY cls) then "NOT SET"
               else last_chars 4 (PRIVATE_KEY cls))] ;;;
  print [Lit "  Funder Address: ";
         PStr (if is_empty (FUNDER_ADDRESS cls) then "NOT SET"
               else FUNDER_ADDRESS cls)] ;;;
  print [Lit "  Max Bid Price: $"; PFloat (MAX_BID_PRICE cls)] ;;;
  print [Lit "  Order Size: "; PFloat (ORDER_SIZE cls); Lit " shares"] ;;;
  print [Lit "  Dry Run: "; PBool (DRY_RUN cls)] ;;;
  print [Lit "====================="].

(** The configuration with another private key. *)
Definition with_private_key (cls : Config) (k : string) : Config :=
  mkConfig (HOST cls) (CHAIN_ID cls) k (FUNDER_ADDRESS cls)
           (MAX_BID_PRICE cls) (ORDER_SIZE cls) (DRY_RUN cls).

(* ================================================================== *)
(** ** helpers/markets.py                                              *)
(* ================================================================== *)

Module markets.

(** What [json.loads] and [response.json()] build: None, a bool, an
    int, a float, a str, a list or a dict with str keys. *)
#[warnings="-register-all"]
Inductive json :=
| JNull
| JBool (b : bool)
| JInt (n : Z)
| JFloat (x : float)
| JStr (s : string)
| JList (l : list json)
| JDict (items : list (string * json)).

(** The exceptions the helpers can meet. *)
Inductive error :=
| JSONDecodeError      (* json.loads on a malformed text; a ValueError *)
| ValueError           (* float() on a str that is no number *)
| IndexError
| TypeError
| KeyError
| OverflowError.       (* float() on an int beyond the floats *)

(** A market as the Gamma API gives it; the helpers only read it with
    [market.get]. *)
Definition dict : Type := string -> option json.

(** [d.get(key, default)] *)
Definition get (d : dict) (key : string) (default : json) : json :=
  match d key with
  | Some v => v
  | None => default
  end.

(** The readers of the libraries: [json.loads] on a str
    ([None]: JSONDecodeError) and [float] on an int ([None]:
    OverflowError); [float] on a str is [float_of_string] of the
    [Library]. *)
Record Readers := mkReaders
  { json_loads : string -> option json;
    float_of_int : Z -> option float }.

(** [json.loads(v)]: only a str is read. *)
Definition loads (rd : Readers) (v : json) : json + error :=
  match v with
  | JStr s => match json_loads rd s with
              | Some j => inl j
              | None => inr JSONDecodeError
              end
  | _ => inr TypeError
  end.

(** [float(v)] *)
Definition to_float (rd : Readers) (lib : Library) (v : json) : float + error :=
  match v with
  | JFloat x => inl x
  | JInt n => match float_of_int rd n with
              | Some x => inl x
              | None => inr OverflowError
              end
  | JBool b => inl (if b then float_finite false 10 (-1)
                    else float_finite false 0 (-1))
  | JStr s => match float_of_string lib s with
              | Some x => inl x
              | None => inr ValueError
              end
  | JNull | JList _ | JDict _ => inr TypeError
  end.

(** [len(v)] *)
Definition len (v : json) : nat + error :=
  match v with
  | JStr s => inl (String.length s)
  | JList l => inl (List.length l)
  | JDict items => inl (List.length items)
  | _ => inr TypeError
  end.

(** [v[i]] for an int [i >= 0].  The keys of a parsed JSON object are
    strs, so an int is never one of them. *)
Definition getitem (v : json) (i : nat) : json + error :=
  match v with
  | JList l => match nth_error l i with
               | Some x => inl x
               | None => inr IndexError
               end
  | JStr s => match String.get i s with
              | Some c => inl (JStr (String c EmptyString))
              | None => inr IndexError
              end
  | JDict _ => inr KeyError
  | _ => inr TypeError
  end.

(** What [enumerate(v)] runs over: the items of a list, the characters
    of a str, the keys of a dict. *)
Definition iterate (v : json) : list json + error :=
  match v with
  | JList l => inl l
  | JStr s => inl (map (fun c => JStr (String c EmptyString)) (list_ascii_of_string s))
  | JDict items => inl (map (fun kv => JStr (fst kv)) items)
  | _ => inr TypeError
  end.

(** A token dictionary: the keys outcome, price, token_id.  A price is
    a float or None; None as a token id is [JNull]. *)
Record token := mkToken
  { tk_outcome : json; tk_price : option float; tk_token_id : json }.

(** [float(prices[i]) if i < len(prices) else None] *)
Definition price_at (rd : Readers) (lib : Library) (prices : json) (i : nat)
  : option float + error :=
  match len prices with
  | inr e => inr e
  | inl n =>
      if (i <? n)%nat
      then match getitem prices i with
           | inr e => inr e
           | inl v => match to_float rd lib v with
                      | inr e => inr e
                      | inl x => inl (Some x)
                      end
           end
      else inl None
  end.

(** [token_ids[i] if i < len(token_ids) else None] *)
Definition token_id_at (token_ids : json) (i : nat) : json + error :=
  match len token_ids with
  | inr e => inr e
  | inl n => if (i <? n)%nat then getitem token_ids i else inl JNull
  end.

(** The dictionary display of the loop body, for index [i]. *)
Definition new_token (rd : Readers) (lib : Library) (prices token_ids : json)
    (i : nat) (outcome : json) : token + error :=
  match price_at rd lib prices i with
  | inr e => inr e
  | inl price =>
      match token_id_at token_ids i with
      | inr e => inr e
      | inl token_id => inl (mkToken outcome price token_id)
      end
  end.

(** [for i, outcome in enumerate(outcomes): ... tokens.append(token)]:
    the list as it stands when the loop ends, and the exception that
    ended it, if one did. *)
Fixpoint for_outcomes (rd : Readers) (lib : Library) (prices token_ids : json)
    (i : nat) (outcomes : list json) (tokens : list token)
  : list token * option error :=
  match outcomes with
  | [] => (tokens, None)
  | outcome :: rest =>
      match new_token rd lib prices token_ids i outcome with
      | inl t => for_outcomes rd lib prices token_ids (S i) rest (tokens ++ [t])
      | inr e => (tokens, Some e)
      end
  end.

(** The body of the try statement of [parse_market_tokens]. *)
Definition parse_body (rd : Readers) (lib : Library) (market : dict)
  : list token * option error :=
  match loads rd (get market "outcomes" (JStr "[]")) with
  | inr e => ([], Some e)
  | inl outcomes =>
    match loads rd (get market "outcomePrices" (JStr "[]")) with
    | inr e => ([], Some e)
    | inl prices =>
      match loads rd (get market "clobTokenIds" (JStr "[]")) with
      | inr e => ([], Some e)
      | inl token_ids =>
        match iterate outcomes with
        | inr e => ([], Some e)
        | inl items => for_outcomes rd lib prices token_ids 0 items []
        end
      end
    end
  end.

(** [except (json.JSONDecodeError, ValueError, IndexError)] *)
Definition handled (e : error) : bool :=
  match e with
  | JSONDecodeError | ValueError | IndexError => true
  | _ => false
  end.

Definition parse_market_tokens (rd : Readers) (lib : Library) (market : dict)
  : list token + error :=
  match parse_body rd lib market with
  | (tokens, None) => inl tokens
  | (tokens, Some e) => if handled e then inl tokens else inr e
  end.

(** The three fields of [market] hold texts of the JSON lists
    [outcomes], [prices] and [token_ids]. *)
Definition lists_of (rd : Readers) (market : dict)
    (outcomes prices token_ids : list json) : Prop :=
  loads rd (get market "outcomes" (JStr "[]")) = inl (JList outcomes) /\
  loads rd (get market "outcomePrices" (JStr "[]")) = inl (JList prices) /\
  loads rd (get market "clobTokenIds" (JStr "[]")) = inl (JList token_ids).

(** [x <= y] on floats: false when one is nan. *)
Definition float_le (x y : float) : bool :=
  match x, y with
  | float_nan, _ | _, float_nan => false
  | _, _ => match Decimal_cmp (Decimal_of_str x) (Decimal_of_str y) with
            | Gt => false
            | _ => true
            end
  end.

(** An entry of the result of [find_low_price_markets]. *)
Record entry := mkEntry
  { question : json; outcome : json; token_id : json; price : float;
    condition_id : json }.

(** [for token in tokens: ...]: a token is kept when its price is set
    and [0 < price <= max_price]. *)
Fixpoint for_tokens (max_price : float) (market : dict) (tokens : list token)
    (results : list entry) : list entry :=
  match tokens with
  | [] => results
  | token :: rest =>
      for_tokens max_price market rest
        match tk_price token with
        | Some p =>
            if float_gt_0 p && float_le p max_price
            then results ++ [mkEntry (get market "question" JNull)
                                     (tk_outcome token) (tk_token_id token) p
                                     (get market "conditionId" JNull)]
            else results
        | None => results
        end
  end.

(** [for market in markets: ...]: an exception of [parse_market_tokens]
    is not caught here. *)
Fixpoint for_markets (rd : Readers) (lib : Library) (max_price : float)
    (markets : list dict) (results : list entry) : list entry + error :=
  match markets with
  | [] => inl results
  | market :: rest =>
      match parse_market_tokens rd lib market with
      | inr e => inr e
      | inl tokens =>
          for_markets rd lib max_price rest (for_tokens max_price market tokens results)
      end
  end.

(** [results.sort(key=lambda x: x["price"])]: the stable sort by [<]
    on the keys. *)
Fixpoint insert (x : entry) (l : list entry) : list entry :=
  match l with
  | [] => [x]
  | y :: l' => if float_gt (price x) (price y) then y :: insert x l' else x :: l
  end.

Definition sort_by_price (l : list entry) : list entry := fold_right insert [] l.

(** [search_markets] asks the Gamma API; what it returned for
    [limit] is [search_markets limit]. *)
Definition find_low_price_markets (rd : Readers) (lib : Library)
    (search_markets : Z -> list dict) (max_price : float) (limit : Z)
  : list entry + error :=
  match for_markets rd lib max_price (search_markets limit) [] with
  | inr e => inr e
  | inl results => inl (sort_by_price results)
  end.

End markets.

(** A market as the Gamma API describes it: two outcomes, their prices
    and token ids as JSON texts. *)
Definition quoted (s : string) : string :=
  String "034" (s ++ String "034" EmptyString).

Definition text_of (items : list string) : string :=
  "[" ++ String.concat ", " items ++ "]".

Definition f_0_01 := float_finite false 1 (-2).
Definition f_0_03 := float_finite false 3 (-2).
Definition f_0_97 := float_finite false 97 (-2).

Definition sample_readers : markets.Readers :=
  markets.mkReaders
    (fun s =>
       if String.eqb s (text_of [quoted "Yes"; quoted "No"])
       then Some (markets.JList [markets.JStr "Yes"; markets.JStr "No"])
       else if String.eqb s (text_of [quoted "0.03"; quoted "0.97"])
       then Some (markets.JList [markets.JStr "0.03"; markets.JStr "0.97"])
       else if String.eqb s (text_of [quoted "0.01"; quoted "n/a"])
       then Some (markets.JList [markets.JStr "0.01"; markets.JStr "n/a"])
       else if String.eqb s (text_of ["null"%string; quoted "0.97"])
       then Some (markets.JList [markets.JNull; markets.JStr "0.97"])
       else if String.eqb s (text_of [quoted "111"; quoted "222"])
       then Some (markets.JList [markets.JStr "111"; markets.JStr "222"])
       else if String.eqb s "[]" then Some (markets.JList [])
       else None)
    (fun n => if n =? 0 then Some (float_finite false 0 (-1))
              else if n =? 1 then Some (float_finite false 10 (-1))
              else None).

Definition price_library : Library :=
  mkLibrary (fun _ _ _ _ => Return sample_client)
            (fun s => if String.eqb s "0.01" then Some f_0_01
                      else if String.eqb s "0.03" then Some f_0_03
                      else if String.eqb s "0.97" then Some f_0_97
                      else None)
            (fun _ => None).

Definition market_with (id prices : string) : markets.dict :=
  fun key =>
    if String.eqb key "question" then Some (markets.JStr "Will it rain?")
    else if String.eqb key "conditionId" then Some (markets.JStr id)
    else if String.eqb key "outcomes"
    then Some (markets.JStr (text_of [quoted "Yes"; quoted "No"]))
    else if String.eqb key "outcomePrices" then Some (markets.JStr prices)
    else if String.eqb key "clobTokenIds"
    then Some (markets.JStr (text_of [quoted "111"; quoted "222"]))
    else None.

Definition sample_market : markets.dict :=
  market_with "0xaa" (text_of [quoted "0.03"; quoted "0.97"]).

(** The second price is no number. *)
Definition market_unreadable : markets.dict :=
  market_with "0xbb" (text_of [quoted "0.01"; quoted "n/a"]).

(** The first price is null. *)
Definition market_null : markets.dict :=
  market_with "0xcc" (text_of ["null"%string; quoted "0.97"]).

(* ================================================================== *)
(** ** The monad: results and state                                    *)
(* ================================================================== *)

Lemma bind_fst {A B} (m : M A) (f : A -> M B) (st : state) :
  fst (bind m f st)
  = match fst (m st) with
    | Return a => fst (f a (snd (m st)))
    | Raise e => Raise e
    end.
Proof. unfold bind. destruct (m st) as [[a|e] st']; reflexivity. Qed.

Lemma bind_snd {A B} (m : M A) (f : A -> M B) (st : state) :
  snd (bind m f st)
  = match fst (m st) with
    | Return a => snd (f a (snd (m st)))
    | Raise e => snd (m st)
    end.
Proof. unfold bind. destruct (m st) as [[a|e] st']; reflexivity. Qed.

Lemma blind_ret {A} (a : A) : blind (ret a).
Proof. intros st st'. reflexivity. Qed.

Lemma blind_throw {A} (e : exception) : blind (@throw A e).
Proof. intros st st'. reflexivity. Qed.

Lemma blind_emit ev : blind (emit ev).
Proof. intros st st'. reflexivity. Qed.

Lemma blind_print l : blind (print l).
Proof. apply blind_emit. Qed.

Lemma blind_raise_error s : blind (raise_error s).
Proof. intros st st'. unfold raise_error. destruct (traps s); reflexivity. Qed.

Lemma blind_bind {A B} (m : M A) (f : A -> M B) :
  blind m -> (forall a, blind (f a)) -> blind (bind m f).
Proof.
  intros Hm Hf st st'. rewrite !bind_fst, (Hm st st').
  destruct (fst (m st')); [apply Hf | reflexivity].
Qed.

Lemma blind_when b m : blind m -> blind (when b m).
Proof. intros H. destruct b; [exact H | apply blind_ret]. Qed.

Lemma blind_if {A} (b : bool) (m1 m2 : M A) :
  blind m1 -> blind m2 -> blind (if b then m1 else m2).
Proof. destruct b; auto. Qed.

Lemma blind_lift {A} (r : result A) : blind (lift r).
Proof. intros st st'. reflexivity. Qed.

Create HintDb blind.
#[export] Hint Resolve blind_ret blind_throw blind_emit blind_print
  blind_raise_error blind_when blind_lift : blind.

Ltac blind_step :=
  match goal with
  | |- blind (bind _ _) => apply blind_bind; [ | intros ? ]
  | |- blind (if _ then _ else _) => apply blind_if
  | |- blind (when _ _) => apply blind_when
  | |- blind (match ?x with _ => _ end) => destruct x
  | |- _ => solve [ auto with blind ]
  end.

Ltac blind_tac := repeat blind_step.

Lemma blind_Decimal_fix d : blind (Decimal_fix d).
Proof. unfold Decimal_fix. destruct d; blind_tac. Qed.

Lemma blind_Decimal_add a b : blind (Decimal_add a b).
Proof.
  unfold Decimal_add, check_nans.
  destruct a as [s1 c1 e1|s1|[|]], b as [s2 c2 e2|s2|[|]];
    repeat first [ apply blind_Decimal_fix | blind_step ].
Qed.

Lemma blind_Decimal_quantize a b r : blind (Decimal_quantize a b r).
Proof.
  unfold Decimal_quantize, check_nans.
  destruct a as [s1 c1 e1|s1|[|]], b as [s2 c2 e2|s2|[|]];
    repeat first [ apply blind_Decimal_fix | blind_step ].
Qed.

Lemma blind_Decimal_gt a b : blind (Decimal_gt a b).
Proof. unfold Decimal_gt. blind_tac. Qed.

Lemma blind_Decimal_ge a b : blind (Decimal_ge a b).
Proof. unfold Decimal_ge. blind_tac. Qed.

#[export] Hint Resolve blind_Decimal_fix blind_Decimal_add
  blind_Decimal_quantize blind_Decimal_gt blind_Decimal_ge : blind.

Lemma blind_calculate_new_bid b t m : blind (calculate_new_bid b t m).
Proof. unfold calculate_new_bid. blind_tac. Qed.

Lemma appends_ret {A} (a : A) : appends (ret a).
Proof. intros st. cbn. rewrite app_nil_r. split; reflexivity. Qed.

Lemma appends_emit ev : appends (emit ev).
Proof. intros st. cbn. split; reflexivity. Qed.

Lemma appends_print l : appends (print l).
Proof. apply appends_emit. Qed.

Lemma appends_raise_error s : appends (raise_error s).
Proof.
  intros st. unfold raise_error. destruct (traps s); cbn;
    rewrite app_nil_r; split; reflexivity.
Qed.

Lemma appends_bind {A B} (m : M A) (f : A -> M B) :
  blind m -> appends m -> (forall a, appends (f a)) -> appends (bind m f).
Proof.
  intros Hb Hm Hf st. rewrite !bind_snd, (Hb st st0).
  destruct (fst (m st0)) as [a|e]; [|apply Hm].
  destruct (Hf a (snd (m st))) as [F1 L1].
  destruct (Hf a (snd (m st0))) as [F2 L2].
  destruct (Hm st) as [F3 L3].
  rewrite F1, L1, F2, L2, F3, L3, !app_assoc. split; reflexivity.
Qed.

Lemma appends_when b m : appends m -> appends (when b m).
Proof. intros H. destruct b; [exact H | apply appends_ret]. Qed.

Lemma appends_if {A} (b : bool) (m1 m2 : M A) :
  appends m1 -> appends m2 -> appends (if b then m1 else m2).
Proof. destruct b; auto. Qed.

#[export] Hint Resolve appends_ret appends_emit appends_print
  appends_raise_error appends_when : blind.

Ltac appends_step :=
  match goal with
  | |- appends (bind _ _) => apply appends_bind; [ blind_tac | | intros ? ]
  | |- appends (if _ then _ else _) => apply appends_if
  | |- appends (when _ _) => apply appends_when
  | |- appends (match ?x with _ => _ end) => destruct x
  | |- _ => solve [ auto with blind ]
  end.

Ltac appends_tac := repeat appends_step.

Lemma appends_Decimal_fix d : appends (Decimal_fix d).
Proof. unfold Decimal_fix. destruct d; appends_tac. Qed.

Lemma appends_Decimal_add a b : appends (Decimal_add a b).
Proof.
  unfold Decimal_add, check_nans.
  destruct a as [s1 c1 e1|s1|[|]], b as [s2 c2 e2|s2|[|]];
    repeat first [ apply appends_Decimal_fix | appends_step ].
Qed.

Lemma appends_Decimal_quantize a b r : appends (Decimal_quantize a b r).
Proof.
  unfold Decimal_quantize, check_nans.
  destruct a as [s1 c1 e1|s1|[|]], b as [s2 c2 e2|s2|[|]];
    repeat first [ apply appends_Decimal_fix | appends_step ].
Qed.

Lemma appends_Decimal_gt a b : appends (Decimal_gt a b).
Proof. unfold Decimal_gt. appends_tac. Qed.

Lemma appends_Decimal_ge a b : appends (Decimal_ge a b).
Proof. unfold Decimal_ge. appends_tac. Qed.

#[export] Hint Resolve appends_Decimal_fix appends_Decimal_add
  appends_Decimal_quantize appends_Decimal_gt appends_Decimal_ge : blind.

Lemma appends_calculate_new_bid b t m : appends (calculate_new_bid b t m).
Proof. unfold calculate_new_bid. appends_tac. Qed.

(* ================================================================== *)
(** ** Powers of ten and the number of digits                          *)
(* ================================================================== *)

Lemma pow10_gt0 k : 0 <= k -> 0 < 10 ^ k.
Proof. intros H. apply Z.pow_pos_nonneg; lia. Qed.

Lemma pow10_add a b : 0 <= a -> 0 <= b -> 10 ^ (a + b) = 10 ^ a * 10 ^ b.
Proof. intros. apply Z.pow_add_r; assumption. Qed.

Lemma pow10_le a b : 0 <= a <= b -> 10 ^ a <= 10 ^ b.
Proof. intros. apply Z.pow_le_mono_r; lia. Qed.

Lemma pow10_lt_inv a b : 0 <= a -> 0 <= b -> 10 ^ a < 10 ^ b -> a < b.
Proof.
  intros Ha Hb H. destruct (Z_lt_le_dec a b) as [L|L]; [exact L|].
  assert (10 ^ b <= 10 ^ a) by (apply pow10_le; lia). lia.
Qed.

Lemma ndigits_aux_spec fuel :
  forall c, 0 <= c < 2 ^ (Z.of_nat fuel + 1) ->
    1 <= ndigits_aux fuel c /\
    (0 < c -> 10 ^ (ndigits_aux fuel c - 1) <= c < 10 ^ (ndigits_aux fuel c)).
Proof.
  induction fuel as [|fuel IH]; intros c Hc.
  - simpl in *. split; [lia|]. intros Hp. change (2 ^ 1) with 2 in Hc.
    simpl. lia.
  - cbn [ndigits_aux]. destruct (c <? 10) eqn:E.
    + apply Z.ltb_lt in E. split; [lia|]. intros Hp. simpl. lia.
    + apply Z.ltb_ge in E.
      assert (Hq : 0 <= c / 10 < 2 ^ (Z.of_nat fuel + 1)).
      { split; [apply Z.div_pos; lia|].
        apply Z.div_lt_upper_bound; [lia|].
        replace (Z.of_nat (S fuel) + 1) with (Z.succ (Z.of_nat fuel + 1)) in Hc by lia.
        rewrite Z.pow_succ_r in Hc by lia. lia. }
      destruct (IH _ Hq) as [H1 H2].
      assert (Hd : 0 < c / 10) by (apply Z.div_str_pos; lia).
      specialize (H2 Hd). split; [lia|]. intros _.
      replace (1 + ndigits_aux fuel (c / 10) - 1)
        with (Z.succ (ndigits_aux fuel (c / 10) - 1)) by lia.
      replace (1 + ndigits_aux fuel (c / 10))
        with (Z.succ (ndigits_aux fuel (c / 10))) by lia.
      rewrite !Z.pow_succ_r by lia.
      pose proof (Z.div_mod c 10 ltac:(lia)) as Hdm.
      pose proof (Z.mod_pos_bound c 10 ltac:(lia)) as Hmb.
      lia.
Qed.

Lemma ndigits_ge1 c : 1 <= ndigits c.
Proof.
  unfold ndigits. destruct (Z_lt_le_dec 0 c) as [H|H].
  - apply ndigits_aux_spec. rewrite Z2Nat.id by apply Z.log2_nonneg.
    pose proof (Z.log2_spec c H). replace (Z.log2 c + 1) with (Z.succ (Z.log2 c)) by lia.
    lia.
  - rewrite Z.log2_nonpos by exact H. reflexivity.
Qed.

Lemma ndigits_spec c : 0 < c -> 10 ^ (ndigits c - 1) <= c < 10 ^ (ndigits c).
Proof.
  intros H. unfold ndigits. apply ndigits_aux_spec; [|exact H].
  rewrite Z2Nat.id by apply Z.log2_nonneg.
  pose proof (Z.log2_spec c H). replace (Z.log2 c + 1) with (Z.succ (Z.log2 c)) by lia.
  lia.
Qed.

(** A coefficient below 10^n has at most n digits, one from 10^n on
    has more than n. *)
Lemma ndigits_le c n : 0 < c -> 0 <= n -> c < 10 ^ n -> ndigits c <= n.
Proof.
  intros Hc Hn H. pose proof (ndigits_spec c Hc) as [L _].
  pose proof (ndigits_ge1 c).
  assert (ndigits c - 1 < n); [|lia].
  apply pow10_lt_inv; lia.
Qed.

Lemma ndigits_gt c n : 0 <= n -> 10 ^ n <= c -> n < ndigits c.
Proof.
  intros Hn H. assert (Hc : 0 < c) by (pose proof (pow10_gt0 n Hn); lia).
  pose proof (ndigits_spec c Hc) as [_ U]. pose proof (ndigits_ge1 c).
  apply pow10_lt_inv; lia.
Qed.

(* ================================================================== *)
(** ** _fix                                                            *)
(* ================================================================== *)

Lemma pow10_split x y z : x <= y <= z -> 10 ^ (z - x) = 10 ^ (z - y) * 10 ^ (y - x).
Proof. intros H. rewrite <- pow10_add by lia. f_equal. lia. Qed.

Lemma div_pow10_ge c n k : 0 <= k <= n -> 10 ^ n <= c -> 10 ^ (n - k) <= c / 10 ^ k.
Proof.
  intros Hk H. apply Z.div_le_lower_bound; [apply pow10_gt0; lia|].
  rewrite <- pow10_add by lia. replace (k + (n - k)) with n by lia. exact H.
Qed.

Lemma ndigits_pow10_27 : ndigits (10 ^ 27) = 28.
Proof. vm_compute. reflexivity. Qed.

Ltac fst_quiet :=
  unfold when, raise_error, bind, ret; cbn [traps fst snd];
  repeat match goal with
         | |- context [if ?b then _ else _] => destruct b; cbn [traps fst snd]
         end.

(** What [_fix] returns on a non-zero finite decimal: the decimal
    itself when it fits, otherwise a coefficient rounded at the
    exponent [g] that the precision and Etiny impose. *)
Lemma Decimal_fix_inv s c e d st :
  c <> 0%N ->
  fst (Decimal_fix (Finite s c e) st) = Return d ->
  exists c' e', d = Finite s c' e' /\
    ((c' = c /\ e' = e /\ ndigits (Z.of_N c) <= prec /\ Etiny <= e) \/
     (e < Z.max (ndigits (Z.of_N c) + e - prec) Etiny /\
      Z.max (ndigits (Z.of_N c) + e - prec) Etiny <= e' /\
      Z.of_N c / 10 ^ (Z.max (ndigits (Z.of_N c) + e - prec) Etiny - e)
        <= Z.of_N c' * 10 ^ (e' - Z.max (ndigits (Z.of_N c) + e - prec) Etiny) /\
      (Etiny < Z.max (ndigits (Z.of_N c) + e - prec) Etiny ->
       prec <= ndigits (Z.of_N c')))).
Proof.
  intros Hc. unfold Decimal_fix. apply N.eqb_neq in Hc. rewrite Hc. cbv zeta.
  assert (Hcz : 0 < Z.of_N c) by (apply N.eqb_neq in Hc; lia).
  pose proof (ndigits_spec _ Hcz) as [Hlo Hhi].
  pose proof (ndigits_ge1 (Z.of_N c)) as Hn1.
  set (n := ndigits (Z.of_N c)) in *.
  destruct (n + e - prec >? Etop) eqn:Etop1.
  { unfold raise_error, bind; cbn. discriminate. }
  set (sub := n + e - prec <? Etiny).
  assert (Hg : (if sub then Etiny else n + e - prec) = Z.max (n + e - prec) Etiny).
  { unfold sub. destruct (n + e - prec <? Etiny) eqn:E;
      [apply Z.ltb_lt in E | apply Z.ltb_ge in E]; lia. }
  rewrite Hg. set (g := Z.max (n + e - prec) Etiny) in *.
  destruct (e <? g) eqn:Eg.
  - apply Z.ltb_lt in Eg.
    set (k := g - e). assert (Hk : 0 < k) by (unfold k; lia).
    pose proof (pow10_gt0 k ltac:(lia)) as Hpk.
    set (q := Z.of_N c / 10 ^ k).
    assert (Hq0 : 0 <= q) by (apply Z.div_pos; lia).
    assert (Hq28 : q < 10 ^ 28).
    { unfold q. apply Z.div_lt_upper_bound; [lia|].
      rewrite <- pow10_add by lia.
      apply Z.lt_le_trans with (10 ^ n); [exact Hhi|].
      apply pow10_le. unfold k, g, prec in *. lia. }
    set (up := round_up ROUND_HALF_EVEN (Z.of_N c) k).
    set (q1 := if up then q + 1 else q).
    assert (Hq1 : q <= q1 <= q + 1) by (unfold q1; destruct up; lia).
    set (carry := up && (ndigits q1 >? prec)).
    set (c2 := if carry then q1 / 10 else q1).
    set (e2 := if carry then g + 1 else g).
    assert (Hcarry : carry = true -> q1 = 10 ^ 28).
    { unfold carry. intros H. apply andb_prop in H as [_ H].
      apply Z.gtb_lt in H. unfold prec in H.
      destruct (Z_lt_le_dec q1 (10 ^ 28)) as [L|L]; [|lia].
      assert (0 < q1).
      { destruct (Z_lt_le_dec 0 q1) as [P|P]; [exact P|].
        assert (q1 = 0) by lia. subst q1. rewrite H0 in H. vm_compute in H. discriminate. }
      pose proof (ndigits_le q1 28 ltac:(lia) ltac:(lia) L). lia. }
    assert (Hc2 : 0 <= c2 /\ q <= c2 * 10 ^ (e2 - g) /\
                  (Etiny < g -> prec <= ndigits c2)).
    { unfold c2, e2. destruct carry.
      - rewrite (Hcarry eq_refl). replace (g + 1 - g) with 1 by lia.
        change (10 ^ 28 / 10) with (10 ^ 27). change (10 ^ 27 * 10 ^ 1) with (10 ^ 28).
        split; [vm_compute; discriminate|]. split; [lia|].
        intros _. rewrite ndigits_pow10_27. unfold prec. lia.
      - replace (g - g) with 0 by lia. change (10 ^ 0) with 1.
        split; [lia|]. split; [lia|].
        intros Hsub. assert (Hgk : k = n - 28) by (unfold k, g, prec in *; lia).
        assert (10 ^ 27 <= q).
        { unfold q. replace 27 with ((n - 1) - k) by lia.
          apply div_pow10_ge; [lia | exact Hlo]. }
        pose proof (ndigits_gt q1 27 ltac:(lia) ltac:(lia)). unfold prec. lia. }
    destruct Hc2 as (Hc20 & Hc2q & Hc2n).
    destruct (e2 >? Etop) eqn:Etop2.
    { unfold raise_error, bind; cbn. discriminate. }
    intros H.
    assert (Hd : d = Finite s (Z.to_N c2) e2).
    { revert H. fst_quiet; intros H; inversion H; reflexivity. }
    exists (Z.to_N c2), e2. split; [exact Hd|]. right.
    rewrite Z2N.id by exact Hc20.
    split; [exact Eg|]. split; [unfold e2; destruct carry; lia|].
    split; [exact Hc2q | exact Hc2n].
  - apply Z.ltb_ge in Eg. intros H.
    assert (Hd : d = Finite s c e).
    { revert H. fst_quiet; intros H; inversion H; reflexivity. }
    exists c, e. split; [exact Hd|]. left.
    unfold g, prec in *. repeat split; lia.
Qed.

(** [_fix] leaves alone what fits the context. *)
Lemma Decimal_fix_id s c e st :
  ndigits (Z.of_N c) <= prec -> Etiny <= e -> e + ndigits (Z.of_N c) - 1 <= Emax ->
  fst (Decimal_fix (Finite s c e) st) = Return (Finite s c e).
Proof.
  intros Hn He Ha. unfold Decimal_fix. cbv zeta.
  destruct (c =? 0)%N eqn:Hc.
  - pose proof (ndigits_ge1 (Z.of_N c)).
    assert (E : (Z.min (Z.max e Etiny) Emax =? e) = true).
    { apply Z.eqb_eq. unfold Emax, Etiny, Emin, prec in *. lia. }
    rewrite E. reflexivity.
  - set (n := ndigits (Z.of_N c)) in *.
    assert (E1 : (n + e - prec >? Etop) = false).
    { rewrite Z.gtb_ltb. apply Z.ltb_ge. unfold Etop, Emax, prec in *. lia. }
    rewrite E1.
    assert (E2 : (e <? (if n + e - prec <? Etiny then Etiny else n + e - prec)) = false).
    { apply Z.ltb_ge. destruct (n + e - prec <? Etiny); unfold prec in *; lia. }
    rewrite E2. fst_quiet; reflexivity.
Qed.


(* ================================================================== *)
(** ** quantize and the comparisons                                    *)
(* ================================================================== *)

Definition invalid {A} : result A := Raise (DecimalException InvalidOperation).

Lemma cut_nonneg c e ee : 0 <= c -> 0 <= cut c e ee.
Proof.
  intros Hc. unfold cut. destruct (ee <=? e) eqn:E.
  - apply Z.leb_le in E. pose proof (pow10_gt0 (e - ee) ltac:(lia)). nia.
  - apply Z.leb_gt in E. apply Z.div_pos; [lia | apply pow10_gt0; lia].
Qed.

(** The result of [quantize] with ROUND_DOWN on finite operands. *)
Lemma Decimal_quantize_finite s c e s2 c2 ee st :
  fst (Decimal_quantize (Finite s c e) (Finite s2 c2 ee) ROUND_DOWN st)
  = if negb ((Etiny <=? ee) && (ee <=? Emax)) then invalid
    else if (c =? 0)%N then Return (Finite s 0 ee)
    else if adjusted c e >? Emax then invalid
    else if adjusted c e - ee + 1 >? prec then invalid
    else if ee + ndigits (cut (Z.of_N c) e ee) - 1 >? Emax then invalid
    else if ndigits (cut (Z.of_N c) e ee) >? prec then invalid
    else Return (Finite s (Z.to_N (cut (Z.of_N c) e ee)) ee).
Proof.
  unfold Decimal_quantize, check_nans.
  destruct (negb ((Etiny <=? ee) && (ee <=? Emax))) eqn:Hee; [reflexivity|].
  apply negb_false_iff, andb_prop in Hee as [H1 H2].
  apply Z.leb_le in H1, H2.
  destruct (c =? 0)%N eqn:Hc.
  { apply (Decimal_fix_id s 0 ee st); change (ndigits (Z.of_N 0)) with 1;
      unfold prec, Emax in *; lia. }
  destruct (adjusted c e >? Emax); [reflexivity|].
  destruct (adjusted c e - ee + 1 >? prec); [reflexivity|].
  unfold Decimal_rescale. rewrite Hc. unfold round_up.
  assert (Hcut : (if ee <=? e
                  then Finite s (Z.to_N (Z.of_N c * 10 ^ (e - ee))) ee
                  else Finite s (Z.to_N (Z.of_N c / 10 ^ (ee - e))) ee)
                 = Finite s (Z.to_N (cut (Z.of_N c) e ee)) ee).
  { unfold cut. destruct (ee <=? e); reflexivity. }
  rewrite Hcut. unfold adjusted.
  pose proof (cut_nonneg (Z.of_N c) e ee ltac:(lia)) as Hnn.
  rewrite Z2N.id by exact Hnn.
  destruct (ee + ndigits (cut (Z.of_N c) e ee) - 1 >? Emax) eqn:E1; [reflexivity|].
  destruct (ndigits (cut (Z.of_N c) e ee) >? prec) eqn:E2; [reflexivity|].
  rewrite Z.gtb_ltb in E1, E2. apply Z.ltb_ge in E1, E2.
  rewrite !bind_fst.
  assert (Hq : forall b m st', (forall st'', fst (m st'') = Return tt) ->
                 fst (when b m st') = Return tt).
  { intros b m st' Hm. destruct b; [apply Hm | reflexivity]. }
  rewrite Hq by (intros; reflexivity).
  rewrite Hq.
  2:{ intros st''. rewrite bind_fst. rewrite Hq by (intros; reflexivity). reflexivity. }
  apply Decimal_fix_id; rewrite ?Z2N.id by exact Hnn; lia.
Qed.

Lemma Decimal_gt_fst a b st :
  fst (Decimal_gt a b st)
  = if isnan a || isnan b then invalid
    else Return (match Decimal_cmp a b with Gt => true | _ => false end).
Proof. unfold Decimal_gt. destruct (isnan a || isnan b); reflexivity. Qed.

Lemma Decimal_ge_fst a b st :
  fst (Decimal_ge a b st)
  = if isnan a || isnan b then invalid
    else Return (match Decimal_cmp a b with Lt => false | _ => true end).
Proof. unfold Decimal_ge. destruct (isnan a || isnan b); reflexivity. Qed.

(** The order of two finite decimals can be read at any exponent below
    both of theirs. *)
Lemma Decimal_cmp_scaled s1 c1 e1 s2 c2 e2 m :
  m <= e1 -> m <= e2 ->
  Decimal_cmp (Finite s1 c1 e1) (Finite s2 c2 e2)
  = (signed s1 c1 * 10 ^ (e1 - m) ?= signed s2 c2 * 10 ^ (e2 - m)).
Proof.
  intros H1 H2. unfold Decimal_cmp. cbv zeta.
  set (m' := Z.min e1 e2).
  rewrite (pow10_split m m' e1), (pow10_split m m' e2) by (unfold m'; lia).
  rewrite !Z.mul_assoc.
  apply Zmult_compare_compat_r. apply Z.lt_gt, pow10_gt0. unfold m'. lia.
Qed.

(** The result of [calculate_new_bid], free of the state it runs in. *)
Lemma calculate_new_bid_fst b t m st :
  fst (calculate_new_bid b t m st)
  = match fst (Decimal_add (Decimal_of_str b) t st0) with
    | Raise e => Raise e
    | Return s =>
        match fst (Decimal_quantize s t ROUND_DOWN st0) with
        | Raise e => Raise e
        | Return q =>
            match fst (Decimal_gt q (Decimal_of_str m) st0) with
            | Raise e => Raise e
            | Return true => Return None
            | Return false =>
                match fst (Decimal_ge (Decimal_of_str b) (Decimal_of_str m) st0) with
                | Raise e => Raise e
                | Return true => Return None
                | Return false => Return (Some q)
                end
            end
        end
    end.
Proof.
  unfold calculate_new_bid. cbv zeta.
  rewrite bind_fst, (blind_Decimal_add _ _ st st0).
  destruct (fst (Decimal_add (Decimal_of_str b) t st0)) as [s|e]; [|reflexivity].
  rewrite bind_fst, (blind_Decimal_quantize _ _ _ _ st0).
  destruct (fst (Decimal_quantize s t ROUND_DOWN st0)) as [q|e]; [|reflexivity].
  rewrite bind_fst. cbn [fst print emit].
  rewrite bind_fst, (blind_Decimal_gt _ _ _ st0).
  destruct (fst (Decimal_gt q (Decimal_of_str m) st0)) as [[|]|e]; try reflexivity.
  rewrite bind_fst, (blind_Decimal_ge _ _ _ st0).
  destruct (fst (Decimal_ge (Decimal_of_str b) (Decimal_of_str m) st0)) as [[|]|e];
    reflexivity.
Qed.

(* ================================================================== *)
(** ** Decimals as rationals                                           *)
(* ================================================================== *)

Lemma ten_nonzero : ~ (inject_Z 10 == 0)%Q.
Proof. intros H. vm_compute in H. discriminate. Qed.

Lemma ten_pos : (0 < inject_Z 10)%Q.
Proof. reflexivity. Qed.

Lemma value_scaled s c e m :
  m <= e ->
  (value s c e == inject_Z (signed s c * 10 ^ (e - m)) * Qpower (inject_Z 10) m)%Q.
Proof.
  intros H. unfold value.
  rewrite inject_Z_mult, Zpower_Qpower by lia.
  rewrite <- Qmult_assoc, <- Qpower_plus by apply ten_nonzero.
  replace (e - m + m) with e by lia. reflexivity.
Qed.

Lemma Qcompare_scaled a b (p : Q) :
  (0 < p)%Q -> (inject_Z a * p ?= inject_Z b * p)%Q = (a ?= b).
Proof.
  intros Hp. destruct (Z.compare_spec a b) as [E|L|G].
  - subst. apply Qeq_alt. reflexivity.
  - apply Qlt_alt. apply Qmult_lt_r; [exact Hp|]. rewrite <- Zlt_Qlt. exact L.
  - apply Qgt_alt. apply Qmult_lt_r; [exact Hp|]. rewrite <- Zlt_Qlt. exact G.
Qed.

(** The model of [_cmp] is the order of the rationals denoted. *)
Lemma Decimal_cmp_value s1 c1 e1 s2 c2 e2 :
  Decimal_cmp (Finite s1 c1 e1) (Finite s2 c2 e2)
  = (value s1 c1 e1 ?= value s2 c2 e2)%Q.
Proof.
  rewrite (Decimal_cmp_scaled _ _ _ _ _ _ (Z.min e1 e2)) by lia.
  rewrite (Qcompare_comp _ _ (value_scaled s1 c1 e1 (Z.min e1 e2) ltac:(lia))
                         _ _ (value_scaled s2 c2 e2 (Z.min e1 e2) ltac:(lia))).
  symmetry. apply Qcompare_scaled. apply Qpower_0_lt, ten_pos.
Qed.

(* ================================================================== *)
(** ** The candidate when it is exact in the context                   *)
(* ================================================================== *)


Lemma signed_zero s : signed s 0 = 0.
Proof. destruct s; reflexivity. Qed.




Lemma cut_div c e ee : e <= ee -> cut c e ee = c / 10 ^ (ee - e).
Proof.
  intros He. unfold cut. destruct (ee <=? e) eqn:E; [|reflexivity].
  apply Z.leb_le in E. replace (e - ee) with 0 by lia.
  replace (ee - e) with 0 by lia. change (10 ^ 0) with 1.
  rewrite Z.div_1_r. lia.
Qed.


(* ================================================================== *)
(** ** The bid calculator: ceiling, precision, rejection               *)
(* ================================================================== *)



(** What a returned price went through: the sum, its quantization, and
    the two comparisons that let it pass. *)
Lemma calculate_new_bid_Some b t m st p :
  fst (calculate_new_bid b t m st) = Return (Some p) ->
  exists s,
    fst (Decimal_add (Decimal_of_str b) t st0) = Return s /\
    fst (Decimal_quantize s t ROUND_DOWN st0) = Return p /\
    isnan p = false /\ isnan (Decimal_of_str m) = false /\
    isnan (Decimal_of_str b) = false /\
    Decimal_cmp p (Decimal_of_str m) <> Gt /\
    Decimal_cmp (Decimal_of_str b) (Decimal_of_str m) = Lt.
Proof.
  rewrite calculate_new_bid_fst.
  destruct (fst (Decimal_add (Decimal_of_str b) t st0)) as [s|]; [|discriminate].
  destruct (fst (Decimal_quantize s t ROUND_DOWN st0)) as [q|] eqn:Hq; [|discriminate].
  rewrite Decimal_gt_fst, Decimal_ge_fst.
  destruct (isnan q) eqn:Nq; [discriminate|].
  destruct (isnan (Decimal_of_str m)) eqn:Nm; [discriminate|]. cbn [orb].
  destruct (isnan (Decimal_of_str b)) eqn:Nb.
  { destruct (Decimal_cmp q (Decimal_of_str m)); discriminate. }
  cbn [orb].
  destruct (Decimal_cmp q (Decimal_of_str m)) eqn:C1; try discriminate;
    (destruct (Decimal_cmp (Decimal_of_str b) (Decimal_of_str m)) eqn:C2;
     try discriminate);
    intros H; inversion H; subst q; exists s;
    (split; [reflexivity|]); (split; [exact Hq|]);
    repeat split; congruence.
Qed.

(** C1: whatever the inputs, a price that calculate_new_bid returns is
    less than or equal to max_price. *)
Theorem C1_returned_price_at_most_max_price b t m st p :
  fst (calculate_new_bid b t m st) = Return (Some p) ->
  Dle p (Decimal_of_str m).
Proof.
  intros H. apply calculate_new_bid_Some in H as (s & _ & _ & Np & Nm & _ & C & _).
  repeat split; assumption.
Qed.

Lemma C1_witness :
  fst (calculate_new_bid f_0_049 tick_0_001 f_0_05 st0)
  = Return (Some (Finite false 50 (-3)))
  /\ Dle (Finite false 50 (-3)) (Decimal_of_str f_0_05).
Proof.
  split; [vm_compute; reflexivity|].
  apply (C1_returned_price_at_most_max_price f_0_049 tick_0_001 f_0_05 st0).
  vm_compute. reflexivity.
Defined.







Lemma Decimal_cmp_antisym a b : Decimal_cmp b a = CompOpp (Decimal_cmp a b).
Proof.
  destruct a as [s1 c1 e1|s1|g1], b as [s2 c2 e2|s2|g2];
    try (cbn [Decimal_cmp]; apply Z.compare_antisym).
  cbn [Decimal_cmp]. rewrite (Z.min_comm e2 e1). apply Z.compare_antisym.
Qed.




(** Scenarios A and B of the specification. *)
Example scenario_A st :
  fst (calculate_new_bid f_0_0 tick_0_001 f_0_05 st)
  = Return (Some (Finite false 1 (-3))).
Proof. rewrite calculate_new_bid_fst. vm_compute. reflexivity. Qed.

Example scenario_B st :
  fst (calculate_new_bid f_0_002 tick_0_001 f_0_003 st)
  = Return (Some (Finite false 3 (-3))).
Proof. rewrite calculate_new_bid_fst. vm_compute. reflexivity. Qed.

(** C5: only a candidate strictly above max_price is rejected by the
    ceiling check.  With best_bid 0.049, tick_size 0.001 and max_price
    0.05 the function returns 0.050, which equals the ceiling; with
    best_bid 0.05 it returns None. *)
Theorem C5_candidate_at_ceiling_allowed st :
  fst (calculate_new_bid f_0_049 tick_0_001 f_0_05 st)
  = Return (Some (Finite false 50 (-3))) /\
  Decimal_cmp (Finite false 50 (-3)) (Decimal_of_str f_0_05) = Eq /\
  fst (calculate_new_bid f_0_05 tick_0_001 f_0_05 st) = Return None.
Proof.
  rewrite !calculate_new_bid_fst. repeat split; vm_compute; reflexivity.
Qed.




(** C9: the result of calculate_new_bid is a function of its three
    arguments alone.  Two calls on the same arguments return the same,
    from whatever states they start; in particular the second of two
    consecutive calls, which runs in the state the first one left (the
    flags of the decimal context, the lines printed), returns what the
    first returned, and prints the same lines. *)
Theorem C9_calculate_new_bid_deterministic b t m st :
  let first := calculate_new_bid b t m st in
  let second := calculate_new_bid b t m (snd first) in
  (forall st', fst (calculate_new_bid b t m st') = fst first) /\
  fst second = fst first /\
  exists out,
    log (snd first) = log st ++ out /\
    log (snd second) = log (snd first) ++ out.
Proof.
  cbv zeta. split; [intros st'; apply blind_calculate_new_bid|].
  split; [apply blind_calculate_new_bid|].
  exists (log (snd (calculate_new_bid b t m st0))).
  split; apply appends_calculate_new_bid.
Qed.

(* ================================================================== *)
(** ** One tick above a tick-aligned best bid                          *)
(* ================================================================== *)




Lemma positive_decimal s c e :
  Dlt Dzero (Finite s c e) -> s = false /\ 0 < Z.of_N c.
Proof.
  intros (_ & _ & H). unfold Dzero in H.
  rewrite (Decimal_cmp_scaled _ _ _ _ _ _ (Z.min 0 e)) in H by lia.
  rewrite signed_zero, Z.mul_0_l in H.
  pose proof (proj1 (Z.compare_lt_iff _ _) H) as L. clear H.
  pose proof (pow10_gt0 (e - Z.min 0 e) ltac:(lia)) as Hp.
  assert (Hn : 0 <= Z.of_N c * 10 ^ (e - Z.min 0 e))
    by (apply Z.mul_nonneg_nonneg; lia).
  unfold signed in L. destruct s; [lia|]. split; [reflexivity|].
  assert (Z.of_N c <> 0) by (intros E; rewrite E in L; lia). lia.
Qed.




(* ================================================================== *)
(** ** A returned price is at least one tick                           *)
(* ================================================================== *)

Lemma mul_pow10_le_cancel a b k : 0 <= k -> a * 10 ^ k <= b * 10 ^ k -> a <= b.
Proof.
  intros Hk H. apply (Z.mul_le_mono_pos_r a b (10 ^ k)); [apply pow10_gt0; exact Hk | exact H].
Qed.

(** The arithmetic of the claim: [C * 10^x] is the unrounded sum, at
    least one tick [ct * 10^et]; [c' * 10^e'] is what [_fix] made of
    it; [quantize] accepted it.  Then the coefficient cut at the tick's
    exponent is still at least [ct]. *)
Lemma tick_le_cut C x ct et c' e' :
  0 < ct -> 0 < C -> x <= et -> ct * 10 ^ (et - x) <= C ->
  0 <= c' ->
  Etiny <= et ->
  (c' <> 0 -> e' + ndigits c' - 1 - et + 1 <= prec) ->
  ((c' = C /\ e' = x) \/
   (x < Z.max (ndigits C + x - prec) Etiny /\
    Z.max (ndigits C + x - prec) Etiny <= e' /\
    C / 10 ^ (Z.max (ndigits C + x - prec) Etiny - x)
      <= c' * 10 ^ (e' - Z.max (ndigits C + x - prec) Etiny) /\
    (Etiny < Z.max (ndigits C + x - prec) Etiny -> prec <= ndigits c'))) ->
  c' <> 0 /\ ct <= cut c' e' et.
Proof.
  intros Hct HC Hx Hge Hc0 Het Hquant [[-> ->]|(Hxg & Hge' & Hround & Hn)].
  - split; [lia|]. rewrite cut_div by exact Hx.
    apply Z.div_le_lower_bound; [apply pow10_gt0; lia | lia].
  - set (g := Z.max (ndigits C + x - prec) Etiny) in *.
    assert (Hg : g <= et).
    { destruct (Z_lt_le_dec Etiny g) as [L|L]; [|lia].
      specialize (Hn L).
      assert (c' <> 0).
      { intros ->. revert Hn. vm_compute. intros F. apply F. reflexivity. }
      specialize (Hquant H). lia. }
    assert (Hlow : ct * 10 ^ (et - g) <= C / 10 ^ (g - x)).
    { apply Z.div_le_lower_bound; [apply pow10_gt0; lia|].
      rewrite (pow10_split x g et) in Hge by lia. lia. }
    pose proof (pow10_gt0 (et - g) ltac:(lia)) as Hp1.
    pose proof (pow10_gt0 (e' - g) ltac:(lia)) as Hp2.
    assert (Hpos : 0 < c' * 10 ^ (e' - g)) by nia.
    split; [nia|].
    unfold cut. destruct (et <=? e') eqn:E.
    + apply Z.leb_le in E.
      apply (mul_pow10_le_cancel _ _ (et - g)); [lia|].
      rewrite <- Z.mul_assoc, <- (pow10_split g et e') by lia. lia.
    + apply Z.leb_gt in E.
      apply Z.div_le_lower_bound; [apply pow10_gt0; lia|].
      apply (mul_pow10_le_cancel _ _ (e' - g)); [lia|].
      rewrite (Z.mul_comm (10 ^ (et - e'))), <- Z.mul_assoc.
      rewrite <- (pow10_split g e' et) by lia. lia.
Qed.

(** The sum of a non-negative best bid and a positive tick, before
    [_fix]: a positive coefficient, at an exponent not above the
    tick's, worth at least one tick. *)
Lemma add_above_tick sb cb eb ct et :
  0 <= signed sb cb -> (0 < ct)%N ->
  exists C x,
    0 < C /\ x <= et /\ Z.of_N ct * 10 ^ (et - x) <= C /\
    forall st, Decimal_add (Finite sb cb eb) (Finite false ct et) st
               = Decimal_fix (Finite false (Z.to_N C) x) st.
Proof.
  intros Hb Hct. unfold Decimal_add, check_nans. cbv zeta.
  assert (Et : (ct =? 0)%N = false) by (apply N.eqb_neq; lia).
  rewrite Et, andb_false_r.
  destruct (cb =? 0)%N eqn:Eb.
  - set (x := Z.max (Z.min eb et) (et - prec - 1)).
    assert (Hx : x <= et) by (unfold x, prec; lia).
    pose proof (pow10_gt0 (et - x) ltac:(lia)) as Hp.
    exists (Z.of_N ct * 10 ^ (et - x)), x.
    split; [nia|]. split; [exact Hx|]. split; [lia|].
    intros st. unfold Decimal_rescale. rewrite Et.
    assert (Hle : (x <=? et) = true) by (apply Z.leb_le; exact Hx).
    rewrite Hle. reflexivity.
  - apply N.eqb_neq in Eb.
    assert (sb = false) by (destruct sb; [unfold signed in Hb; lia | reflexivity]).
    subst sb. cbn [signed] in *.
    set (x := Z.min eb et).
    pose proof (pow10_gt0 (eb - x) ltac:(unfold x; lia)) as Hp1.
    pose proof (pow10_gt0 (et - x) ltac:(unfold x; lia)) as Hp2.
    set (z := Z.of_N cb * 10 ^ (eb - x) + Z.of_N ct * 10 ^ (et - x)).
    assert (Hz : 0 < z) by (unfold z; nia).
    exists z, x. split; [exact Hz|]. split; [unfold x; lia|].
    split; [unfold z; nia|].
    intros st.
    assert (Hn : (z <? 0) = false) by (apply Z.ltb_ge; lia).
    rewrite Hn, Z.abs_eq by lia. reflexivity.
Qed.

Lemma nonneg_decimal s c e :
  Dle Dzero (Finite s c e) -> 0 <= signed s c.
Proof.
  intros (_ & _ & H). unfold Dzero in H.
  rewrite (Decimal_cmp_scaled _ _ _ _ _ _ (Z.min 0 e)) in H by lia.
  rewrite signed_zero, Z.mul_0_l in H.
  pose proof (proj1 (Z.compare_le_iff _ _) H) as L. clear H.
  pose proof (pow10_gt0 (e - Z.min 0 e) ltac:(lia)) as Hp.
  unfold signed in *. destruct s; [|lia].
  assert (Hn : 0 <= Z.of_N c * 10 ^ (e - Z.min 0 e))
    by (apply Z.mul_nonneg_nonneg; lia).
  assert (Z.of_N c * 10 ^ (e - Z.min 0 e) = 0) by lia.
  apply Z.mul_eq_0 in H. lia.
Qed.

Lemma returned_price_at_least_tick b t m st p :
  Dle Dzero (Decimal_of_str b) ->
  Dlt Dzero t ->
  fst (calculate_new_bid b t m st) = Return (Some p) ->
  Dle t p /\ Dlt Dzero p.
Proof.
  intros Hb Ht H.
  apply calculate_new_bid_Some in H as (r & Ha & Hq & _).
  destruct t as [s2 ct et|s2|g2].
  - (* a finite tick *)
    destruct (positive_decimal _ _ _ Ht) as [-> Hct].
    destruct (Decimal_of_str b) as [sb cb eb|sb|gb] eqn:Eb.
    + pose proof (nonneg_decimal _ _ _ Hb) as Hsb.
      destruct (add_above_tick sb cb eb ct et Hsb ltac:(lia))
        as (C & x & HC & Hx & Hge & Hadd).
      rewrite Hadd in Ha.
      apply Decimal_fix_inv in Ha; [|lia].
      destruct Ha as (c' & e' & -> & Hfix).
      rewrite Z2N.id in Hfix by lia.
      rewrite Decimal_quantize_finite in Hq.
      destruct (negb ((Etiny <=? et) && (et <=? Emax))) eqn:Hee; [discriminate|].
      apply negb_false_iff, andb_prop in Hee as [He1 He2].
      apply Z.leb_le in He1, He2.
      assert (Hquant : Z.of_N c' <> 0 ->
                       e' + ndigits (Z.of_N c') - 1 - et + 1 <= prec).
      { intros Hnz. destruct (c' =? 0)%N eqn:E0; [apply N.eqb_eq in E0; lia|].
        destruct (adjusted c' e' >? Emax); [discriminate|].
        destruct (adjusted c' e' - et + 1 >? prec) eqn:E1; [discriminate|].
        rewrite Z.gtb_ltb in E1. apply Z.ltb_ge in E1. exact E1. }
      assert (Hfix' :
        (Z.of_N c' = C /\ e' = x) \/
        (x < Z.max (ndigits C + x - prec) Etiny /\
         Z.max (ndigits C + x - prec) Etiny <= e' /\
         C / 10 ^ (Z.max (ndigits C + x - prec) Etiny - x)
           <= Z.of_N c' * 10 ^ (e' - Z.max (ndigits C + x - prec) Etiny) /\
         (Etiny < Z.max (ndigits C + x - prec) Etiny -> prec <= ndigits (Z.of_N c')))).
      { destruct Hfix as [(E1 & E2 & _)|Hr]; [left; subst c'; split; [lia|exact E2] | right; exact Hr]. }
      destruct (tick_le_cut C x (Z.of_N ct) et (Z.of_N c') e'
                  Hct HC Hx Hge ltac:(lia) He1 Hquant Hfix') as [Hnz Hcut].
      assert (E0 : (c' =? 0)%N = false) by (apply N.eqb_neq; lia).
      rewrite E0 in Hq.
      repeat match type of Hq with
             | (if ?c then _ else _) = _ => destruct c; try discriminate
             end.
      inversion Hq; subst p.
      pose proof (cut_nonneg (Z.of_N c') e' et ltac:(lia)) as Hnn.
      split; repeat split.
      * rewrite (Decimal_cmp_scaled _ _ _ _ _ _ et) by lia.
        replace (et - et) with 0 by lia. change (10 ^ 0) with 1.
        cbn [signed]. rewrite Z2N.id by lia. apply Z.compare_le_iff. lia.
      * unfold Dzero. rewrite (Decimal_cmp_scaled _ _ _ _ _ _ (Z.min 0 et)) by lia.
        cbn [signed]. rewrite Z2N.id by lia. apply Z.compare_lt_iff.
        pose proof (pow10_gt0 (et - Z.min 0 et) ltac:(lia)). nia.
    + (* an infinite best bid: quantize raises *)
      cbn in Ha. inversion Ha; subst r. discriminate Hq.
    + destruct Hb as (_ & N & _). discriminate N.
  - (* an infinite tick *)
    destruct Ht as (_ & _ & Ht). destruct s2; [discriminate Ht|].
    destruct (Decimal_of_str b) as [sb cb eb|sb|gb] eqn:Eb.
    + cbn in Ha. inversion Ha; subst r. cbn in Hq. inversion Hq; subst p.
      split; repeat split. discriminate.
    + destruct Hb as (_ & _ & Hb). destruct sb; [exfalso; apply Hb; reflexivity|].
      cbn in Ha. inversion Ha; subst r. cbn in Hq. inversion Hq; subst p.
      split; repeat split. discriminate.
    + destruct Hb as (_ & N & _). discriminate N.
  - destruct Ht as (_ & N & _). discriminate N.
Qed.



(** On an empty book [get_best_bid] returns 0.0 ... *)
Lemma get_best_bid_empty_book lib client tok st :
  get_order_book client tok = Return [] ->
  fst (get_best_bid lib client tok st) = Return f_0_0.
Proof.
  intros H. unfold get_best_bid, call, lift, print, emit, bind, ret.
  cbn. rewrite H. reflexivity.
Qed.

(** ... so the first bid decided on it is never below one tick. *)
Lemma empty_book_first_bid lib client tok t m st st' b p :
  get_order_book client tok = Return [] ->
  fst (get_best_bid lib client tok st) = Return b ->
  Dlt Dzero t ->
  fst (calculate_new_bid b t m st') = Return (Some p) ->
  Dle t p.
Proof.
  intros Hbook Hb Ht Hp. rewrite (get_best_bid_empty_book _ _ _ _ Hbook) in Hb.
  inversion Hb; subst b.
  apply (returned_price_at_least_tick f_0_0 t m st' p); [|exact Ht|exact Hp].
  repeat split. vm_compute. discriminate.
Qed.

(* ================================================================== *)
(** ** The dispatcher in dry-run mode                                  *)
(* ================================================================== *)

(** C7: in dry-run mode place_order returns None and does nothing but
    print: no event reaches the venue, so the creation, the signing and
    the posting of an order are never called; the client it was given
    plays no part. *)
Theorem C7_dry_run_submits_nothing client token price size st :
  fst (place_order client token price size true st) = Return None /\
  flags (snd (place_order client token price size true st)) = flags st /\
  (exists out,
     log (snd (place_order client token price size true st)) = log st ++ out /\
     forallb (fun ev => negb (is_network ev)) out = true /\
     forallb (fun ev => negb (is_submission ev)) out = true) /\
  (forall client',
     place_order client' token price size true st
     = place_order client token price size true st).
Proof.
  unfold place_order, print, emit, bind, ret. cbn.
  split; [reflexivity|]. split; [reflexivity|]. split; [|reflexivity].
  eexists. rewrite <- !app_assoc. cbn [app].
  split; [reflexivity|]. split; reflexivity.
Qed.

(* ================================================================== *)
(** ** Config.validate and the start of main                           *)
(* ================================================================== *)

Lemma validate_run cfg st :
  validate cfg st
  = (match validate_errors cfg with
     | [] => Return tt
     | errors => Raise (ValueError ("Configuration errors:" ++ nl ++ "  - "
                                    ++ String.concat (nl ++ "  - ") errors))
     end, st).
Proof. unfold validate. destruct (validate_errors cfg); reflexivity. Qed.

Lemma validate_errors_nil cfg :
  validate_errors cfg = [] <->
  credential_ok (PRIVATE_KEY cfg) = true /\
  credential_ok (FUNDER_ADDRESS cfg) = true /\
  float_le_0 (MAX_BID_PRICE cfg) = false /\
  float_le_0 (ORDER_SIZE cfg) = false.
Proof.
  unfold validate_errors, credential_ok.
  destruct (is_empty (PRIVATE_KEY cfg)), (startswith (PRIVATE_KEY cfg) "0x"),
    (is_empty (FUNDER_ADDRESS cfg)), (startswith (FUNDER_ADDRESS cfg) "0x"),
    (float_le_0 (MAX_BID_PRICE cfg)), (float_le_0 (ORDER_SIZE cfg));
    cbn; split; intros H; try discriminate H; try reflexivity;
    repeat match goal with
           | H : _ /\ _ |- _ => destruct H
           end; try discriminate; auto.
Qed.

(** What Config.validate does check: it raises its ValueError exactly
    when a credential is missing or does not start with 0x, or
    MAX_BID_PRICE <= 0, or ORDER_SIZE <= 0. *)
Lemma validate_raises_iff cfg st :
  (exists msg, fst (validate cfg st) = Raise (ValueError msg)) <->
  credential_ok (PRIVATE_KEY cfg) = false \/
  credential_ok (FUNDER_ADDRESS cfg) = false \/
  float_le_0 (MAX_BID_PRICE cfg) = true \/
  float_le_0 (ORDER_SIZE cfg) = true.
Proof.
  rewrite validate_run. cbn [fst].
  pose proof (validate_errors_nil cfg) as Hnil.
  destruct (validate_errors cfg) as [|e l].
  - destruct (proj1 Hnil eq_refl) as (H1 & H2 & H3 & H4).
    split; [intros [msg H]; discriminate H|].
    intros [H|[H|[H|H]]]; congruence.
  - split; [intros _ | intros _; eexists; reflexivity].
    destruct (credential_ok (PRIVATE_KEY cfg)) eqn:E1; [|auto].
    destruct (credential_ok (FUNDER_ADDRESS cfg)) eqn:E2; [|auto].
    destruct (float_le_0 (MAX_BID_PRICE cfg)) eqn:E3; [auto|].
    destruct (float_le_0 (ORDER_SIZE cfg)) eqn:E4; [auto|].
    assert (F : e :: l = []) by (apply Hnil; auto). discriminate F.
Qed.

(** When Config.validate raises, main prints the error and exits with
    status 1; nothing has gone out to the venue. *)
Lemma main_configuration_error lib cfg args st :
  validate_errors cfg <> [] ->
  fst (main lib cfg args st) = Return 1 /\
  flags (snd (main lib cfg args st)) = flags st /\
  exists out,
    log (snd (main lib cfg args st)) = log st ++ out /\
    forallb (fun ev => negb (is_network ev)) out = true.
Proof.
  intros Herr. unfold main, try_except, print, emit, bind, ret.
  cbn. rewrite validate_run. destruct (validate_errors cfg) as [|e l]; [congruence|].
  cbn. split; [reflexivity|]. split; [reflexivity|].
  eexists. rewrite <- !app_assoc. cbn [app]. split; reflexivity.
Qed.

(** For the floats that are not nan, [x <= 0] is the negation of
    [x > 0]; nan is neither. *)
Lemma float_le_0_not_gt_0 x :
  x <> float_nan -> float_le_0 x = negb (float_gt_0 x).
Proof.
  destruct x as [s c e|s|]; intros H; cbn.
  - destruct s, (c =? 0)%N; reflexivity.
  - destruct s; reflexivity.
  - congruence.
Qed.

(** C8 fails on the code for MAX_BID_PRICE = nan.  The price is not
    positive, yet Config.validate does not raise; main then creates the
    client, authenticates, reads the book and the tick size, and only
    calculate_new_bid fails, with decimal.InvalidOperation: exit status
    1 after network activity. *)
Theorem C8_validate_accepts_nan_max_bid_price :
  float_gt_0 (MAX_BID_PRICE cfg_nan_max) = false /\
  (forall st, fst (validate cfg_nan_max st) = Return tt) /\
  fst (main sample_library cfg_nan_max sample_args st0) = Return 1 /\
  filter is_network (log (snd (main sample_library cfg_nan_max sample_args st0)))
  = [NewClient "https://clob.polymarket.com" "0x01" 137 "0x02";
     CreateOrDeriveApiCreds; SetApiCreds "creds";
     GetOrderBook "123456"; GetTickSize "123456"] /\
  flags (snd (main sample_library cfg_nan_max sample_args st0)) = [InvalidOperation].
Proof.
  split; [reflexivity|]. split; [intros st; reflexivity|].
  split; [vm_compute; reflexivity|]. split; vm_compute; reflexivity.
Qed.

(* ================================================================== *)
(** ** The order of decimals                                           *)
(* ================================================================== *)

Lemma Decimal_cmp_trans a b c :
  isnan a = false -> isnan b = false -> isnan c = false ->
  Decimal_cmp a b <> Gt -> Decimal_cmp b c <> Gt ->
  Decimal_cmp a c <> Gt /\
  (Decimal_cmp a b = Lt \/ Decimal_cmp b c = Lt -> Decimal_cmp a c = Lt).
Proof.
  intros Na Nb Nc.
  destruct a as [s1 c1 e1|s1|g1]; [| |discriminate Na];
  destruct b as [s2 c2 e2|s2|g2]; [| |discriminate Nb| | |discriminate Nb];
  destruct c as [s3 c3 e3|s3|g3]; try discriminate Nc.
  - rewrite !Decimal_cmp_value, <- !Qle_alt, <- !Qlt_alt. intros H1 H2.
    split; [eapply Qle_trans; eassumption|].
    intros [H|H]; [eapply Qlt_le_trans | eapply Qle_lt_trans]; eassumption.
  - destruct s3; cbn; intros H1 H2; split; try congruence; auto.
  - destruct s2; cbn; intros H1 H2; split; try congruence; auto.
  - destruct s2, s3; cbn; intros H1 H2; split; try congruence; auto;
      intros [H|H]; congruence.
  - destruct s1; cbn; intros H1 H2; split; try congruence; auto.
  - destruct s1, s3; cbn; intros H1 H2; split; try congruence; auto;
      intros [H|H]; congruence.
  - destruct s1, s2; cbn; intros H1 H2; split; try congruence; auto;
      intros [H|H]; congruence.
  - destruct s1, s2, s3; cbn; intros H1 H2; split; try congruence; auto;
      intros [H|H]; congruence.
Qed.

Lemma Dlt_Dle_trans a b c : Dlt a b -> Dle b c -> Dlt a c.
Proof.
  intros (Na & Nb & H1) (_ & Nc & H2). repeat split; try assumption.
  apply (Decimal_cmp_trans a b c Na Nb Nc); [congruence | exact H2 | left; exact H1].
Qed.

Lemma Dle_Dlt_trans a b c : Dle a b -> Dlt b c -> Dlt a c.
Proof.
  intros (Na & Nb & H1) (_ & Nc & H2). repeat split; try assumption.
  apply (Decimal_cmp_trans a b c Na Nb Nc); [exact H1 | congruence | right; exact H2].
Qed.

Lemma Dle_trans a b c : Dle a b -> Dle b c -> Dle a c.
Proof.
  intros (Na & Nb & H1) (_ & Nc & H2). repeat split; try assumption.
  apply (Decimal_cmp_trans a b c Na Nb Nc); assumption.
Qed.

(* ================================================================== *)
(** ** A returned price improves on the best bid                       *)
(* ================================================================== *)

(** The sum [C * 10^x], worth at least [K] units of the tick's
    exponent, still is after [_fix] and [quantize]. *)
Lemma fix_quantize_floor C x s2 c2 et K r q st st' :
  0 < C -> x <= et -> 0 < K -> K * 10 ^ (et - x) <= C ->
  fst (Decimal_fix (Finite false (Z.to_N C) x) st) = Return r ->
  fst (Decimal_quantize r (Finite s2 c2 et) ROUND_DOWN st') = Return q ->
  exists cq, q = Finite false cq et /\ K <= Z.of_N cq.
Proof.
  intros HC Hx HK Hge Ha Hq.
  apply Decimal_fix_inv in Ha; [|lia].
  destruct Ha as (c' & e' & -> & Hfix).
  rewrite Z2N.id in Hfix by lia.
  rewrite Decimal_quantize_finite in Hq.
  destruct (negb ((Etiny <=? et) && (et <=? Emax))) eqn:Hee; [discriminate|].
  apply negb_false_iff, andb_prop in Hee as [He1 He2].
  apply Z.leb_le in He1, He2.
  assert (Hquant : Z.of_N c' <> 0 ->
                   e' + ndigits (Z.of_N c') - 1 - et + 1 <= prec).
  { intros Hnz. destruct (c' =? 0)%N eqn:E0; [apply N.eqb_eq in E0; lia|].
    destruct (adjusted c' e' >? Emax); [discriminate|].
    destruct (adjusted c' e' - et + 1 >? prec) eqn:E1; [discriminate|].
    rewrite Z.gtb_ltb in E1. apply Z.ltb_ge in E1. exact E1. }
  assert (Hfix' :
    (Z.of_N c' = C /\ e' = x) \/
    (x < Z.max (ndigits C + x - prec) Etiny /\
     Z.max (ndigits C + x - prec) Etiny <= e' /\
     C / 10 ^ (Z.max (ndigits C + x - prec) Etiny - x)
       <= Z.of_N c' * 10 ^ (e' - Z.max (ndigits C + x - prec) Etiny) /\
     (Etiny < Z.max (ndigits C + x - prec) Etiny -> prec <= ndigits (Z.of_N c')))).
  { destruct Hfix as [(E1 & E2 & _)|Hr];
      [left; subst c'; split; [lia|exact E2] | right; exact Hr]. }
  destruct (tick_le_cut C x K et (Z.of_N c') e'
              HK HC Hx Hge ltac:(lia) He1 Hquant Hfix') as [Hnz Hcut].
  assert (E0 : (c' =? 0)%N = false) by (apply N.eqb_neq; lia).
  rewrite E0 in Hq.
  repeat match type of Hq with
         | (if ?c then _ else _) = _ => destruct c; try discriminate
         end.
  inversion Hq; subst q.
  pose proof (cut_nonneg (Z.of_N c') e' et ltac:(lia)) as Hnn.
  eexists. split; [reflexivity|]. rewrite Z2N.id by lia. exact Hcut.
Qed.

(** The candidate of a non-negative best bid and a positive finite
    tick, once quantized, is strictly above the best bid and at least
    one tick. *)
Lemma quantized_candidate_above B s2 ct et r q st st' :
  Dle Dzero B -> Dlt Dzero (Finite s2 ct et) ->
  fst (Decimal_add B (Finite s2 ct et) st) = Return r ->
  fst (Decimal_quantize r (Finite s2 ct et) ROUND_DOWN st') = Return q ->
  Dlt B q /\ Dle (Finite s2 ct et) q.
Proof.
  intros Hb Ht Ha Hq.
  destruct (positive_decimal _ _ _ Ht) as [-> Hct].
  destruct B as [sb cb eb|sb|gb].
  - pose proof (nonneg_decimal _ _ _ Hb) as Hsb.
    assert (Htick : forall cq, Z.of_N ct <= Z.of_N cq ->
                               Dle (Finite false ct et) (Finite false cq et)).
    { intros cq Hle. repeat split.
      rewrite (Decimal_cmp_scaled _ _ _ _ _ _ et) by lia.
      replace (et - et) with 0 by lia. change (10 ^ 0) with 1.
      cbn [signed]. apply Z.compare_le_iff. lia. }
    destruct (cb =? 0)%N eqn:Eb.
    + (* a best bid of zero *)
      apply N.eqb_eq in Eb. subst cb.
      destruct (add_above_tick sb 0 eb ct et Hsb ltac:(lia))
        as (C & x & HC & Hx & Hge & Hadd).
      rewrite Hadd in Ha.
      destruct (fix_quantize_floor C x false ct et (Z.of_N ct) r q st st'
                  HC Hx Hct Hge Ha Hq) as (cq & -> & Hle).
      split; [|apply Htick; exact Hle].
      repeat split.
      rewrite (Decimal_cmp_scaled _ _ _ _ _ _ (Z.min eb et)) by lia.
      rewrite signed_zero, Z.mul_0_l. cbn [signed]. apply Z.compare_lt_iff.
      pose proof (pow10_gt0 (et - Z.min eb et) ltac:(lia)). nia.
    + (* a positive best bid *)
      apply N.eqb_neq in Eb.
      assert (sb = false)
        by (destruct sb; [unfold signed in Hsb; lia | reflexivity]).
      subst sb. cbn [signed] in Hsb.
      set (x := Z.min eb et).
      pose proof (pow10_gt0 (eb - x) ltac:(unfold x; lia)) as Hp1.
      pose proof (pow10_gt0 (et - x) ltac:(unfold x; lia)) as Hp2.
      set (P := 10 ^ (et - x)) in *.
      set (Bz := Z.of_N cb * 10 ^ (eb - x)) in *.
      set (C := Bz + Z.of_N ct * P).
      assert (HBz : 0 < Bz) by (unfold Bz; nia).
      assert (HC : 0 < C) by (unfold C; nia).
      assert (Hadd : fst (Decimal_add (Finite false cb eb) (Finite false ct et) st)
                     = fst (Decimal_fix (Finite false (Z.to_N C) x) st)).
      { unfold Decimal_add, check_nans. cbv zeta.
        assert (E1 : (cb =? 0)%N = false) by (apply N.eqb_neq; lia).
        assert (E2 : (ct =? 0)%N = false) by (apply N.eqb_neq; lia).
        rewrite E1, E2. cbn [andb signed]. fold x. fold P. fold Bz. fold C.
        assert (Hn : (C <? 0) = false) by (apply Z.ltb_ge; lia).
        rewrite Hn, Z.abs_eq by lia. reflexivity. }
      rewrite Hadd in Ha.
      set (K := C / P).
      pose proof (Z.div_mod C P ltac:(lia)) as Hdm.
      pose proof (Z.mod_pos_bound C P ltac:(lia)) as Hmb.
      assert (HKge : Z.of_N ct <= K)
        by (apply Z.div_le_lower_bound; [lia | unfold C; nia]).
      assert (HK : 0 < K) by lia.
      assert (HKP : K * P <= C) by (unfold K; nia).
      destruct (fix_quantize_floor C x false ct et K r q st st'
                  HC ltac:(unfold x; lia) HK HKP Ha Hq) as (cq & -> & Hle).
      split; [|apply Htick; lia].
      repeat split.
      rewrite (Decimal_cmp_scaled _ _ _ _ _ _ x) by (unfold x; lia).
      cbn [signed]. fold P. fold Bz. apply Z.compare_lt_iff.
      unfold K in *. unfold C in *. nia.
  - (* an infinite best bid: quantize raises *)
    destruct Hb as (_ & _ & Hb). destruct sb; [exfalso; apply Hb; reflexivity|].
    cbn in Ha. inversion Ha; subst r. discriminate Hq.
  - destruct Hb as (_ & N & _). discriminate N.
Qed.





(* ================================================================== *)
(** ** Results and events of composed computations                     *)
(* ================================================================== *)

Lemma emits_weaken {A} (m : M A) (P Q : result A -> list event -> Prop) :
  emits m P -> (forall r o, P r o -> Q r o) -> emits m Q.
Proof.
  intros H HPQ st. destruct (H st) as (out & Hl & HP).
  exists out. split; [exact Hl | apply HPQ, HP].
Qed.

Lemma emits_ret {A} (a : A) : emits (ret a) (fun r o => r = Return a /\ o = []).
Proof. intros st. exists []. cbn. rewrite app_nil_r. auto. Qed.

Lemma emits_throw {A} (e : exception) :
  emits (@throw A e) (fun r o => r = Raise e /\ o = []).
Proof. intros st. exists []. cbn. rewrite app_nil_r. auto. Qed.

Lemma emits_emit ev : emits (emit ev) (fun r o => r = Return tt /\ o = [ev]).
Proof. intros st. exists [ev]. cbn. auto. Qed.

Lemma emits_print l : emits (print l) (fun r o => r = Return tt /\ o = [Print l]).
Proof. apply emits_emit. Qed.

Lemma emits_call {A} ev (r : result A) :
  emits (call ev r) (fun r' o => r' = r /\ o = [ev]).
Proof. intros st. exists [ev]. unfold call, emit, lift, bind. cbn. auto. Qed.

Lemma emits_bind {A B} (m : M A) (f : A -> M B)
      (P : result A -> list event -> Prop) (Q : result B -> list event -> Prop) :
  emits m P ->
  (forall e o, P (Raise e) o -> Q (Raise e) o) ->
  (forall a o, P (Return a) o -> emits (f a) (fun r o' => Q r (o ++ o'))) ->
  emits (bind m f) Q.
Proof.
  intros Hm Hraise Hf st. destruct (Hm st) as (o & Hl & HP).
  rewrite bind_fst, bind_snd.
  destruct (fst (m st)) as [a|e].
  - destruct (Hf a o HP (snd (m st))) as (o' & Hl' & HQ).
    exists (o ++ o'). rewrite Hl', Hl, app_assoc. auto.
  - exists o. auto.
Qed.

Lemma try_except_fst {A} (m : M A) (h : exception -> M A) st :
  fst (try_except m h st)
  = match fst (m st) with
    | Return a => Return a
    | Raise e => fst (h e (snd (m st)))
    end.
Proof. unfold try_except. destruct (m st) as [[a|e] st']; reflexivity. Qed.

Lemma try_except_snd {A} (m : M A) (h : exception -> M A) st :
  snd (try_except m h st)
  = match fst (m st) with
    | Return a => snd (m st)
    | Raise e => snd (h e (snd (m st)))
    end.
Proof. unfold try_except. destruct (m st) as [[a|e] st']; reflexivity. Qed.

Lemma emits_try_except {A} (m : M A) (h : exception -> M A)
      (P Q : result A -> list event -> Prop) :
  emits m P ->
  (forall a o, P (Return a) o -> Q (Return a) o) ->
  (forall e o, P (Raise e) o -> emits (h e) (fun r o' => Q r (o ++ o'))) ->
  emits (try_except m h) Q.
Proof.
  intros Hm Hret Hh st. destruct (Hm st) as (o & Hl & HP).
  rewrite try_except_fst, try_except_snd.
  destruct (fst (m st)) as [a|e].
  - exists o. auto.
  - destruct (Hh e o HP (snd (m st))) as (o' & Hl' & HQ).
    exists (o ++ o'). rewrite Hl', Hl, app_assoc. auto.
Qed.

(** A printing step in front changes neither the result nor the calls. *)
Lemma emits_print_then {A} l (m : M A) (Q : result A -> list event -> Prop) :
  emits m (fun r o => Q r (Print l :: o)) ->
  emits (print l ;;; m) Q.
Proof.
  intros H. eapply emits_bind; [apply emits_print | |].
  - intros e o [E _]. discriminate E.
  - intros [] o [_ ->]. exact H.
Qed.

Lemma calls_app o o' : calls (o ++ o') = calls o ++ calls o'.
Proof. apply filter_app. Qed.

Lemma calls_print l o : calls (Print l :: o) = calls o.
Proof. reflexivity. Qed.

Lemma quiet_ret {A} (a : A) : quiet (ret a).
Proof. eapply emits_weaken; [apply emits_ret|]. intros r o [_ ->]. reflexivity. Qed.

Lemma quiet_print l : quiet (print l).
Proof. eapply emits_weaken; [apply emits_print|]. intros r o [_ ->]. reflexivity. Qed.

Lemma quiet_raise_error s : quiet (raise_error s).
Proof.
  intros st. exists []. unfold raise_error. destruct (traps s); cbn;
    rewrite app_nil_r; auto.
Qed.

Lemma quiet_bind {A B} (m : M A) (f : A -> M B) :
  quiet m -> (forall a, quiet (f a)) -> quiet (bind m f).
Proof.
  intros Hm Hf. eapply emits_bind; [exact Hm | auto |].
  intros a o Ho. eapply emits_weaken; [apply Hf|].
  intros r o' Ho'. cbv beta. rewrite calls_app, Ho, Ho'. reflexivity.
Qed.

Lemma quiet_when b m : quiet m -> quiet (when b m).
Proof. intros H. destruct b; [exact H | apply quiet_ret]. Qed.

Lemma quiet_if {A} (b : bool) (m1 m2 : M A) :
  quiet m1 -> quiet m2 -> quiet (if b then m1 else m2).
Proof. destruct b; auto. Qed.

Ltac quiet_step :=
  match goal with
  | |- quiet (bind _ _) => apply quiet_bind; [ | intros ? ]
  | |- quiet (if _ then _ else _) => apply quiet_if
  | |- quiet (when _ _) => apply quiet_when
  | |- quiet (match ?x with _ => _ end) => destruct x
  | |- quiet (ret _) => apply quiet_ret
  | |- quiet (print _) => apply quiet_print
  | |- quiet (raise_error _) => apply quiet_raise_error
  end.

Lemma quiet_Decimal_fix d : quiet (Decimal_fix d).
Proof. unfold Decimal_fix. destruct d; repeat quiet_step. Qed.

Lemma quiet_Decimal_add a b : quiet (Decimal_add a b).
Proof.
  unfold Decimal_add, check_nans.
  destruct a as [s1 c1 e1|s1|[|]], b as [s2 c2 e2|s2|[|]];
    repeat first [ apply quiet_Decimal_fix | quiet_step ].
Qed.

Lemma quiet_Decimal_quantize a b r : quiet (Decimal_quantize a b r).
Proof.
  unfold Decimal_quantize, check_nans.
  destruct a as [s1 c1 e1|s1|[|]], b as [s2 c2 e2|s2|[|]];
    repeat first [ apply quiet_Decimal_fix | quiet_step ].
Qed.

Lemma quiet_Decimal_gt a b : quiet (Decimal_gt a b).
Proof. unfold Decimal_gt. repeat quiet_step. Qed.

Lemma quiet_Decimal_ge a b : quiet (Decimal_ge a b).
Proof. unfold Decimal_ge. repeat quiet_step. Qed.

Lemma quiet_calculate_new_bid b t m : quiet (calculate_new_bid b t m).
Proof.
  unfold calculate_new_bid.
  repeat first [ apply quiet_Decimal_add | apply quiet_Decimal_quantize
               | apply quiet_Decimal_gt | apply quiet_Decimal_ge | quiet_step ].
Qed.

Lemma emits_result {A} (m : M A) (P : result A -> list event -> Prop)
      (R : result A -> Prop) :
  emits m P -> (forall st, R (fst (m st))) ->
  emits m (fun r o => P r o /\ R r).
Proof.
  intros H HR st. destruct (H st) as (o & Hl & HP). exists o. auto.
Qed.

(* ================================================================== *)
(** ** The client, the reader and the dispatcher, call by call         *)
(* ================================================================== *)

(** initialize_client: the constructor, then the derivation of the
    credentials, then their installation; a failure stops the sequence
    and is passed on. *)
Lemma initialize_client_calls lib cfg :
  emits_calls (initialize_client lib cfg)
    (fun r c =>
       let new := NewClient (HOST cfg) (PRIVATE_KEY cfg) (CHAIN_ID cfg)
                            (FUNDER_ADDRESS cfg) in
       match new_ClobClient lib (HOST cfg) (PRIVATE_KEY cfg) (CHAIN_ID cfg)
                            (FUNDER_ADDRESS cfg) with
       | Raise e => r = Raise e /\ c = [new]
       | Return client =>
           match create_or_derive_api_creds client with
           | Raise e => r = Raise e /\ c = [new; CreateOrDeriveApiCreds]
           | Return creds =>
               r = Return client /\
               c = [new; CreateOrDeriveApiCreds; SetApiCreds creds]
           end
       end).
Proof.
  unfold emits_calls. intros st. unfold initialize_client, call, lift, print, emit, bind, ret.
  cbn. destruct (new_ClobClient lib _ _ _ _) as [client|e]; cbn.
  - destruct (create_or_derive_api_creds client) as [creds|e]; cbn;
      eexists; rewrite <- !app_assoc; cbn [app]; (split; [reflexivity|]);
      split; reflexivity.
  - eexists. rewrite <- !app_assoc. cbn [app]. split; [reflexivity|].
    split; reflexivity.
Qed.

(** The floats of a list of price strings, or none if one of them does
    not read as a float. *)
Lemma floats_of_strings_run lib l st :
  exists r, floats_of_strings lib l st = (r, st) /\
    match r with
    | Return xs => map (float_of_string lib) l = map Some xs
    | Raise e => e = ValueError "could not convert string to float" /\
                 exists s, In s l /\ float_of_string lib s = None
    end.
Proof.
  induction l as [|s l IH]; cbn.
  - exists (Return []). split; reflexivity.
  - destruct (float_of_string lib s) as [x|] eqn:E.
    + destruct IH as (r & Hr & Hs). unfold bind. rewrite Hr.
      destruct r as [xs|e].
      * exists (Return (x :: xs)). split; [reflexivity|]. cbn. rewrite Hs. reflexivity.
      * exists (Raise e). split; [reflexivity|]. destruct Hs as (-> & s' & Hin & Hn).
        split; [reflexivity|]. exists s'. auto.
    + exists (Raise (ValueError "could not convert string to float")).
      split; [reflexivity|]. split; [reflexivity|]. exists s. auto.
Qed.

(** get_best_bid asks for the order book once, whatever comes of it. *)
Lemma get_best_bid_calls lib client tok :
  emits_calls (get_best_bid lib client tok)
              (fun r c => c = [GetOrderBook tok]).
Proof.
  unfold emits_calls. intros st. unfold get_best_bid, call, lift, print, emit, bind, ret. cbn.
  destruct (get_order_book client tok) as [[|s l]|e]; cbn -[floats_of_strings].
  - eexists. rewrite <- !app_assoc. cbn [app]. split; reflexivity.
  - match goal with
    | |- context [floats_of_strings lib ?l ?st'] =>
        destruct (floats_of_strings_run lib l st') as (r & Hr & _)
    end.
    rewrite Hr.
    destruct r as [[|x xs]|e]; cbn;
      eexists; rewrite <- !app_assoc; cbn [app]; split; reflexivity.
  - eexists. rewrite <- !app_assoc. cbn [app]. split; reflexivity.
Qed.

(** get_tick_size asks for the tick size once. *)
Lemma get_tick_size_calls lib client tok :
  emits_calls (get_tick_size lib client tok)
              (fun r c => c = [GetTickSize tok]).
Proof.
  unfold emits_calls. intros st. unfold get_tick_size, call, lift, print, emit, bind, ret, raise_error.
  cbn. destruct (get_tick_size_reply client tok) as [s|e]; cbn.
  - destruct (Decimal_of_string lib s) as [t|]; cbn;
      eexists; rewrite <- ?app_assoc; cbn [app]; split; reflexivity.
  - eexists. split; reflexivity.
Qed.

(** place_order, live: the order is created with the token, the price,
    the size and the side BUY, then posted as GTC; the acknowledgment
    of the venue is the result, a failure of either call is passed on,
    and nothing is posted when the creation failed. *)
Lemma place_order_live_calls client tok price sz :
  emits_calls (place_order client tok price sz false)
    (fun r c =>
       let oa := mkOrderArgs tok price sz "BUY" in
       match create_order client oa with
       | Raise e => r = Raise e /\ c = [CreateOrder oa]
       | Return signed_order =>
           c = [CreateOrder oa; PostOrder signed_order "GTC"] /\
           match post_order client signed_order "GTC" with
           | Raise e => r = Raise e
           | Return response => r = Return (Some response)
           end
       end).
Proof.
  unfold emits_calls. intros st.
  unfold place_order, call, lift, print, emit, bind, ret. cbn.
  destruct (create_order client _) as [so|e]; cbn.
  - destruct (post_order client so "GTC") as [resp|e]; cbn;
      eexists; rewrite <- !app_assoc; cbn [app]; (split; [reflexivity|]);
      split; reflexivity.
  - eexists. rewrite <- !app_assoc. cbn [app]. split; [reflexivity|].
    split; reflexivity.
Qed.

Lemma place_order_dry_run_calls client tok price sz :
  emits_calls (place_order client tok price sz true)
              (fun r c => r = Return None /\ c = []).
Proof.
  unfold emits_calls. intros st. unfold place_order, print, emit, bind, ret. cbn.
  eexists. rewrite <- !app_assoc. cbn [app]. split; [reflexivity|].
  split; reflexivity.
Qed.

Lemma emits_calls_weaken {A} (m : M A) (P Q : result A -> list event -> Prop) :
  emits_calls m P -> (forall r c, P r c -> Q r c) -> emits_calls m Q.
Proof. intros H HPQ. eapply emits_weaken; [exact H|]. intros r o. apply HPQ. Qed.

Lemma emits_calls_bind {A B} (m : M A) (f : A -> M B)
      (P : result A -> list event -> Prop) (Q : result B -> list event -> Prop) :
  emits_calls m P ->
  (forall e c, P (Raise e) c -> Q (Raise e) c) ->
  (forall a c, P (Return a) c -> emits_calls (f a) (fun r c' => Q r (c ++ c'))) ->
  emits_calls (bind m f) Q.
Proof.
  intros Hm Hraise Hf. eapply emits_bind; [exact Hm | intros e o; apply Hraise |].
  intros a o HP. eapply emits_weaken; [apply (Hf a (calls o) HP)|].
  intros r o' HQ. cbv beta. rewrite calls_app. exact HQ.
Qed.

Lemma emits_calls_try_except {A} (m : M A) (h : exception -> M A)
      (P Q : result A -> list event -> Prop) :
  emits_calls m P ->
  (forall a c, P (Return a) c -> Q (Return a) c) ->
  (forall e c, P (Raise e) c -> emits_calls (h e) (fun r c' => Q r (c ++ c'))) ->
  emits_calls (try_except m h) Q.
Proof.
  intros Hm Hret Hh. eapply emits_try_except; [exact Hm | intros a o; apply Hret |].
  intros e o HP. eapply emits_weaken; [apply (Hh e (calls o) HP)|].
  intros r o' HQ. cbv beta. rewrite calls_app. exact HQ.
Qed.

Lemma emits_calls_ret {A} (a : A) (Q : result A -> list event -> Prop) :
  Q (Return a) [] -> emits_calls (ret a) Q.
Proof.
  intros H. eapply emits_weaken; [apply emits_ret|]. intros r o [-> ->]. exact H.
Qed.

(** A step that only prints and returns leaves result and calls to the
    rest. *)
Lemma emits_calls_quiet_then {A} (m : M unit) (k : M A)
      (Q : result A -> list event -> Prop) :
  emits_calls m (fun r c => r = Return tt /\ c = []) ->
  emits_calls k Q -> emits_calls (m ;;; k) Q.
Proof.
  intros Hm Hk. eapply emits_calls_bind; [exact Hm | |].
  - intros e c [E _]. discriminate E.
  - intros [] c [_ ->]. exact Hk.
Qed.

Lemma emits_calls_print l :
  emits_calls (print l) (fun r c => r = Return tt /\ c = []).
Proof.
  eapply emits_weaken; [apply emits_print|]. intros r o [-> ->]. auto.
Qed.

Lemma emits_calls_emit_traceback :
  emits_calls (emit PrintTraceback) (fun r c => r = Return tt /\ c = []).
Proof.
  eapply emits_weaken; [apply emits_emit|]. intros r o [-> ->]. auto.
Qed.

Ltac skip_prints :=
  repeat (apply emits_calls_quiet_then;
          [first [apply emits_calls_print | apply emits_calls_emit_traceback]|]).

Lemma validation_step cfg :
  emits_calls (try_except (validate cfg ;;; ret true)
           (fun e => match e with
                     | ValueError msg =>
                         print [Lit "Configuration error: "; PStr msg] ;;;
                         ret false
                     | _ => throw e
                     end))
        (fun r c => c = [] /\
                    r = Return (match validate_errors cfg with
                                | [] => true | _ => false end)).
Proof.
  unfold emits_calls. intros st.
  unfold try_except, bind, ret, print, emit. rewrite validate_run.
  destruct (validate_errors cfg); cbn.
  - exists []. rewrite app_nil_r. auto.
  - eexists. split; [reflexivity|]. auto.
Qed.

Lemma calculate_new_bid_calls b t m :
  emits_calls (calculate_new_bid b t m)
    (fun r c => c = [] /\
                forall p, r = Return (Some p) -> Dle p (Decimal_of_str m)).
Proof.
  unfold emits_calls.
  eapply emits_weaken.
  - apply (emits_result (calculate_new_bid b t m) (fun _ o => calls o = [])
                        (fun r => forall p, r = Return (Some p) ->
                                            Dle p (Decimal_of_str m))).
    + apply quiet_calculate_new_bid.
    + intros st p H.
      apply calculate_new_bid_Some in H as (s & _ & _ & Np & Nm & _ & C & _).
      repeat split; assumption.
  - cbv beta. auto.
Qed.


Lemma run_shape_exit_1 cfg args r c :
  run_shape cfg args r c -> run_shape cfg args (Return 1) c.
Proof.
  unfold run_shape. intros (H1 & H2 & H3 & _ & _).
  split; [exact H1|]. split; [exact H2|]. split; [exact H3|].
  split; intros E; discriminate E.
Qed.

Lemma run_shape_raise cfg args e c :
  run_shape cfg args (Return 1) c -> run_shape cfg args (Raise e) c.
Proof.
  unfold run_shape. intros (H1 & H2 & H3 & _ & _).
  split; [exact H1|]. split; [exact H2|]. split; [exact H3|].
  split; intros E; discriminate E.
Qed.

Ltac in_cases H :=
  cbn [In app] in H;
  repeat (destruct H as [H|H]; [try discriminate H|]);
  try contradiction.

Ltac shape_tac creds p so :=
  unfold run_shape;
  split; [exists creds, p, so; unfold is_prefix, session; eexists;
          cbn [app]; reflexivity|];
  split; [let oa := fresh "oa" in let Hin := fresh "Hin" in
          intros oa Hin; in_cases Hin;
          try (inversion Hin; subst; cbn [oa_price]; split; assumption)|];
  split; [let Hin := fresh "Hin" in
          intros ? ? Hin; in_cases Hin; try assumption|];
  split; [let E := fresh "E" in
          intros E; try discriminate E; cbn [List.length app]; lia|];
  let E := fresh "E" in let Hin := fresh "Hin" in
  intros E ? Hin; try discriminate E; in_cases Hin;
  try (eexists; cbn [In app]; do 6 right; left; reflexivity).


(* ================================================================== *)
(** ** A run of main                                                   *)
(* ================================================================== *)

(** Every run of [main] returns 0 or 1, and its calls on the client
    have the shape [run_shape]. *)
Lemma main_run lib cfg args :
  emits_calls (main lib cfg args)
    (fun r c => exists code, r = Return code /\ (code = 0 \/ code = 1) /\
                (validate_errors cfg <> [] -> code = 1 /\ c = []) /\
                run_shape cfg args r c).
Proof.
  unfold main. skip_prints.
  eapply emits_calls_bind; [apply validation_step | |].
  { intros e c [_ E]. discriminate E. }
  intros valid c [-> Hv]. inversion Hv; subst valid. clear Hv. cbn [app].
  destruct (validate_errors cfg) as [|err errs] eqn:Herr; cbn [negb].
  2:{ apply emits_calls_ret. exists 1.
      split; [reflexivity|]. split; [auto|]. split; [auto|].
      shape_tac ""%string Dzero ""%string. }
  cbv zeta.
  fold (effective_dry_run cfg args). fold (effective_max_price cfg args).
  fold (effective_order_size cfg args).
  skip_prints.
  apply emits_calls_quiet_then.
  { destruct (effective_dry_run cfg args); cbn [negb when].
    - apply emits_calls_ret. auto.
    - skip_prints. apply emits_calls_print. }
  eapply emits_calls_weaken with
    (P := fun r c => exists code, r = Return code /\ (code = 0 \/ code = 1) /\
                                  run_shape cfg args r c).
  2:{ intros r c (code & H1 & H2 & H3). exists code.
      split; [exact H1|]. split; [exact H2|].
      split; [intros F; exfalso; apply F; reflexivity | exact H3]. }
  eapply emits_calls_try_except with
    (P := fun r c => (r = Return 0 \/ exists e, r = Raise e) /\
                     run_shape cfg args r c).
  2:{ intros a c [[E|[e E]] H]; [|discriminate E]. inversion E; subst a.
      exists 0. auto. }
  2:{ intros e c [_ H]. skip_prints. apply emits_calls_ret. rewrite app_nil_r.
      exists 1. split; [reflexivity|]. split; [auto|].
      eapply run_shape_exit_1; exact H. }
  set (tok := token_id args).
  set (new := NewClient (HOST cfg) (PRIVATE_KEY cfg) (CHAIN_ID cfg) (FUNDER_ADDRESS cfg)).
  eapply emits_calls_bind; [apply initialize_client_calls | |].
  { cbv zeta. fold new. intros e c H.
    split; [right; eauto|]. apply run_shape_raise.
    destruct (new_ClobClient lib _ _ _ _) as [client|e0].
    - destruct (create_or_derive_api_creds client) as [creds|e1];
        destruct H as [E ->]; [discriminate E|].
      shape_tac ""%string Dzero ""%string.
    - destruct H as [_ ->]. shape_tac ""%string Dzero ""%string. }
  cbv zeta. fold new. intros client c H.
  destruct (new_ClobClient lib _ _ _ _) as [client'|e0];
    [|destruct H as [E _]; discriminate E].
  destruct (create_or_derive_api_creds client') as [creds|e1];
    destruct H as [E ->]; [|discriminate E].
  inversion E; subst client'. clear E.
  skip_prints.
  eapply emits_calls_bind; [apply get_best_bid_calls | |].
  { intros e c ->. split; [right; eauto|]. apply run_shape_raise.
    shape_tac creds Dzero ""%string. }
  intros best_bid c ->.
  eapply emits_calls_bind; [apply get_tick_size_calls | |].
  { intros e c ->. split; [right; eauto|]. apply run_shape_raise.
    shape_tac creds Dzero ""%string. }
  intros tick_size c ->.
  skip_prints.
  eapply emits_calls_bind; [apply calculate_new_bid_calls | |].
  { intros e c [-> _]. split; [right; eauto|]. apply run_shape_raise.
    shape_tac creds Dzero ""%string. }
  intros [p|] c [-> Hp].
  2:{ skip_prints. apply emits_calls_ret. split; [left; reflexivity|].
      shape_tac creds Dzero ""%string. }
  specialize (Hp p eq_refl).
  destruct (effective_dry_run cfg args) eqn:Hdry.
  - eapply emits_calls_bind; [apply place_order_dry_run_calls | |].
    { intros e c [E _]. discriminate E. }
    intros r c [_ ->]. skip_prints. apply emits_calls_ret.
    split; [left; reflexivity|]. shape_tac creds Dzero ""%string.
  - eapply emits_calls_bind; [apply place_order_live_calls | |].
    + cbv zeta. intros e c H. split; [right; eauto|]. apply run_shape_raise.
      destruct (create_order client _) as [so|e2].
      * destruct H as [-> _]. shape_tac creds p so.
      * destruct H as [_ ->]. shape_tac creds p ""%string.
    + cbv zeta. intros r c H.
      destruct (create_order client _) as [so|e2];
        [|destruct H as [E _]; discriminate E].
      destruct H as [-> H]. skip_prints. apply emits_calls_ret.
      split; [left; reflexivity|]. shape_tac creds p so.
Qed.

Lemma main_run_at lib cfg args st :
  exists out code,
    log (snd (main lib cfg args st)) = log st ++ out /\
    fst (main lib cfg args st) = Return code /\ (code = 0 \/ code = 1) /\
    (validate_errors cfg <> [] -> code = 1 /\ calls out = []) /\
    run_shape cfg args (Return code) (calls out).
Proof.
  destruct (main_run lib cfg args st) as (out & Hl & code & Hr & Hc & Hv & Hs).
  exists out, code. rewrite Hr in Hs. auto.
Qed.


(** X4: the calls of main on the client are always an initial part of
    one fixed sequence: client construction, credential derivation,
    credential installation, order book, tick size, order creation,
    order posting as GTC.  So each of them happens at most once per run
    and never before the ones in front of it; the order created is for
    the token of the command line, the effective size and the side
    BUY. *)
Theorem X4_main_calls_in_order lib cfg args st :
  exists out creds p so,
    log (snd (main lib cfg args st)) = log st ++ out /\
    is_prefix (calls out)
              (session cfg (token_id args) creds
                       (mkOrderArgs (token_id args) p
                                    (effective_order_size cfg args) "BUY")
                       so).
Proof.
  destruct (main_run_at lib cfg args st)
    as (out & code & Hl & _ & _ & _ & (creds & p & so & Hp) & _).
  exists out, creds, p, so. auto.
Qed.

Lemma In_calls ev out : In ev (calls out) <-> In ev out /\ is_network ev = true.
Proof. apply filter_In. Qed.



(** X6: every order main creates has a price at most the effective
    max price (the command line's, else the configuration's), and is
    created only when dry-run is off. *)
Theorem X6_main_orders_respect_ceiling lib cfg args st :
  exists out,
    log (snd (main lib cfg args st)) = log st ++ out /\
    forall oa, In (CreateOrder oa) out ->
      Dle (oa_price oa) (Decimal_of_str (effective_max_price cfg args)) /\
      effective_dry_run cfg args = false.
Proof.
  destruct (main_run_at lib cfg args st)
    as (out & code & Hl & _ & _ & _ & _ & Hcreate & _).
  exists out. split; [exact Hl|]. intros oa Hin.
  destruct (Hcreate oa) as [H1 H2]; [apply In_calls; auto | auto].
Qed.

(** X7: an exit status 0 is never a failure in disguise: the order
    book and the tick size were read, and an order that was created
    was also posted. *)
Theorem X7_main_success_means_done lib cfg args st :
  fst (main lib cfg args st) = Return 0 ->
  exists out,
    log (snd (main lib cfg args st)) = log st ++ out /\
    In (GetOrderBook (token_id args)) out /\
    In (GetTickSize (token_id args)) out /\
    forall oa, In (CreateOrder oa) out -> exists so, In (PostOrder so "GTC") out.
Proof.
  intros H0.
  destruct (main_run_at lib cfg args st)
    as (out & code & Hl & Hr & _ & _ & (creds & p & so & rest & Hp) & _ & _ & Hlen & Hdone).
  rewrite Hr in H0. inversion H0; subst code. clear H0.
  specialize (Hlen eq_refl). specialize (Hdone eq_refl).
  exists out. split; [exact Hl|].
  assert (Hfive : In (GetOrderBook (token_id args)) (calls out) /\
                  In (GetTickSize (token_id args)) (calls out)).
  { unfold session in Hp.
    destruct (calls out) as [|e1 [|e2 [|e3 [|e4 [|e5 c]]]]];
      cbn [List.length] in Hlen; try lia.
    cbn [app] in Hp. inversion Hp; subst. cbn [In]. auto 10. }
  destruct Hfive as [H4 H5]. apply In_calls in H4, H5.
  split; [tauto|]. split; [tauto|].
  intros oa Hin. destruct (Hdone oa) as [so' Hso]; [apply In_calls; auto|].
  exists so'. apply In_calls in Hso. tauto.
Qed.

Lemma emits_calls_result {A} (m : M A) (P : result A -> list event -> Prop)
      (R : result A -> Prop) :
  emits_calls m P -> (forall st, R (fst (m st))) ->
  emits_calls m (fun r c => P r c /\ R r).
Proof.
  intros H HR st. destruct (H st) as (o & Hl & HP). exists o. auto.
Qed.

(** X8: the run that places the order.  With a valid configuration,
    dry-run off, a venue that answers, and a price from
    calculate_new_bid, main makes the seven calls of a session in
    order, the order created being (token, price, effective size, BUY)
    and posted as GTC, and exits with status 0. *)
Theorem X8_main_places_the_order lib cfg args client creds b t p so ack st :
  let tok := token_id args in
  let oa := mkOrderArgs tok p (effective_order_size cfg args) "BUY" in
  validate_errors cfg = [] ->
  effective_dry_run cfg args = false ->
  new_ClobClient lib (HOST cfg) (PRIVATE_KEY cfg) (CHAIN_ID cfg)
                 (FUNDER_ADDRESS cfg) = Return client ->
  create_or_derive_api_creds client = Return creds ->
  (forall st', fst (get_best_bid lib client tok st') = Return b) ->
  (forall st', fst (get_tick_size lib client tok st') = Return t) ->
  fst (calculate_new_bid b t (effective_max_price cfg args) st0)
  = Return (Some p) ->
  create_order client oa = Return so ->
  post_order client so "GTC" = Return ack ->
  fst (main lib cfg args st) = Return 0 /\
  exists out,
    log (snd (main lib cfg args st)) = log st ++ out /\
    calls out = session cfg tok creds oa so.
Proof.
  intros tok oa Hv Hdry Hnew Hcreds Hb Ht Hp Hco Hpo.
  assert (H : emits_calls (main lib cfg args)
                (fun r c => r = Return 0 /\ c = session cfg tok creds oa so)).
  2:{ destruct (H st) as (out & Hl & Hr & Hc). split; [exact Hr|]. eauto. }
  unfold main. skip_prints.
  eapply emits_calls_bind; [apply validation_step | |].
  { intros e c [_ E]. discriminate E. }
  intros valid c [-> E]. rewrite Hv in E. inversion E; subst valid. clear E.
  cbn [negb app]. cbv zeta.
  fold (effective_dry_run cfg args). fold (effective_max_price cfg args).
  fold (effective_order_size cfg args). fold tok.
  rewrite Hdry. skip_prints.
  apply emits_calls_quiet_then.
  { cbn [negb when]. skip_prints. apply emits_calls_print. }
  eapply emits_calls_try_except with
    (P := fun r c => r = Return 0 /\ c = session cfg tok creds oa so).
  2:{ intros a c [E ->]. auto. }
  2:{ intros e c [E _]. discriminate E. }
  eapply emits_calls_bind; [apply initialize_client_calls | |];
    cbv zeta; rewrite Hnew, Hcreds.
  { intros e c [E _]. discriminate E. }
  intros client' c [E ->]. inversion E; subst client'. clear E.
  skip_prints.
  eapply emits_calls_bind;
    [eapply emits_calls_result with (R := fun r => r = Return b);
     [apply get_best_bid_calls | apply Hb] | |].
  { intros e c [_ E]. discriminate E. }
  intros b' c [-> E]. inversion E; subst b'. clear E.
  eapply emits_calls_bind;
    [eapply emits_calls_result with (R := fun r => r = Return t);
     [apply get_tick_size_calls | apply Ht] | |].
  { intros e c [_ E]. discriminate E. }
  intros t' c [-> E]. inversion E; subst t'. clear E.
  skip_prints.
  eapply emits_calls_bind;
    [eapply emits_calls_result with (R := fun r => r = Return (Some p));
     [apply calculate_new_bid_calls
     | intros st'; rewrite (blind_calculate_new_bid _ _ _ st' st0); exact Hp] | |].
  { intros e c [_ E]. discriminate E. }
  intros nb c [[-> _] E]. inversion E; subst nb. clear E.
  eapply emits_calls_bind; [apply place_order_live_calls | |];
    cbv zeta; fold oa; rewrite Hco, Hpo.
  { intros e c [_ E]. discriminate E. }
  intros r c [-> _]. skip_prints. apply emits_calls_ret.
  split; reflexivity.
Qed.

Lemma X8_witness :
  fst (main sample_library cfg_sample live_args st0) = Return 0 /\
  exists out,
    log (snd (main sample_library cfg_sample live_args st0)) = log st0 ++ out /\
    calls out
    = session cfg_sample "123456" "creds"
              (mkOrderArgs "123456" (Finite false 3 (-3))
                           (float_finite false 50 (-1)) "BUY")
              "signed".
Proof.
  apply (X8_main_places_the_order sample_library cfg_sample live_args
           sample_client "creds" f_0_002 tick_0_001 (Finite false 3 (-3))
           "signed" "ack" st0);
    try reflexivity; intros st'; reflexivity.
Defined.

Lemma X7_witness :
  fst (main sample_library cfg_sample sample_args st0) = Return 0 /\
  exists out,
    log (snd (main sample_library cfg_sample sample_args st0)) = log st0 ++ out /\
    In (GetOrderBook (token_id sample_args)) out /\
    In (GetTickSize (token_id sample_args)) out /\
    forall oa, In (CreateOrder oa) out -> exists so, In (PostOrder so "GTC") out.
Proof.
  assert (H : fst (main sample_library cfg_sample sample_args st0) = Return 0)
    by (vm_compute; reflexivity).
  split; [exact H|].
  apply (X7_main_success_means_done sample_library cfg_sample sample_args st0 H).
Defined.

(* ================================================================== *)
(** ** get_best_bid: the highest bid                                   *)
(* ================================================================== *)

Lemma float_gt_true x y :
  float_gt x y = true <->
  x <> float_nan /\ y <> float_nan /\
  Decimal_cmp (Decimal_of_str x) (Decimal_of_str y) = Gt.
Proof.
  unfold float_gt.
  destruct x as [s1 c1 e1|s1|], y as [s2 c2 e2|s2|];
    try (split; [intros H; discriminate H | intros (H1 & H2 & _); congruence]);
    destruct (Decimal_cmp _ _);
    (split; [intros H; try discriminate H; repeat split; try discriminate
            | intros (_ & _ & H); try discriminate H; reflexivity]).
Qed.

Lemma isnan_Decimal_of_str x : x <> float_nan -> isnan (Decimal_of_str x) = false.
Proof. destruct x; intros H; [reflexivity | reflexivity | congruence]. Qed.



Lemma float_gt_asym x y : float_gt x y = true -> float_gt y x = false.
Proof.
  intros H. apply float_gt_true in H as (Nx & Ny & H).
  destruct (float_gt y x) eqn:E; [|reflexivity].
  apply float_gt_true in E as (_ & _ & E).
  rewrite (Decimal_cmp_antisym (Decimal_of_str x)), H in E. discriminate E.
Qed.






(** X10: a bid price that does not read as a float is not skipped:
    get_best_bid fails with ValueError. *)
Theorem X10_get_best_bid_unreadable_price lib client tok bids s st :
  get_order_book client tok = Return bids ->
  In s bids -> float_of_string lib s = None ->
  fst (get_best_bid lib client tok st)
  = Raise (ValueError "could not convert string to float").
Proof.
  intros Hbook Hin Hn.
  unfold get_best_bid, call, lift, print, emit, bind, ret. cbn -[floats_of_strings].
  rewrite Hbook. destruct bids as [|s0 l]; [destruct Hin|].
  cbn -[floats_of_strings].
  match goal with
  | |- context [floats_of_strings lib ?l ?st'] =>
      destruct (floats_of_strings_run lib l st') as (r & Hr & Hs)
  end.
  rewrite Hr. destruct r as [xs|e].
  - exfalso.
    assert (Hs' : In (float_of_string lib s) (map Some xs))
      by (rewrite <- Hs; apply in_map; exact Hin).
    rewrite Hn in Hs'. apply in_map_iff in Hs' as (x & Hx & _). discriminate Hx.
  - destruct Hs as (-> & _). reflexivity.
Qed.

Lemma X10_witness :
  fst (get_best_bid
         (mkLibrary (fun _ _ _ _ => Return sample_client) (fun _ => None)
                    (fun _ => None))
         sample_client "123456" st0)
  = Raise (ValueError "could not convert string to float").
Proof.
  apply (X10_get_best_bid_unreadable_price _ sample_client "123456"
           ["0.002"%string] "0.002"%string st0);
    [reflexivity | left; reflexivity | reflexivity].
Defined.

(* ================================================================== *)
(** ** The dispatcher, live; the configuration check                   *)
(* ================================================================== *)

(** X11: place_order with dry-run off creates one order, for the token,
    the price, the size and the side BUY it was given, and posts what
    the creation returned, once, as GTC.  The acknowledgment of the
    venue is returned as it is; a failure of the creation or of the
    posting is passed on as it is, and nothing is posted when the
    creation failed. *)
Theorem X11_place_order_live client tok price sz st :
  let oa := mkOrderArgs tok price sz "BUY" in
  let run := place_order client tok price sz false st in
  exists out,
    log (snd run) = log st ++ out /\
    match create_order client oa with
    | Raise e => fst run = Raise e /\ calls out = [CreateOrder oa]
    | Return signed_order =>
        calls out = [CreateOrder oa; PostOrder signed_order "GTC"] /\
        fst run = match post_order client signed_order "GTC" with
                  | Raise e => Raise e
                  | Return response => Return (Some response)
                  end
    end.
Proof.
  cbv zeta.
  destruct (place_order_live_calls client tok price sz st) as (out & Hl & H).
  exists out. split; [exact Hl|]. cbv zeta in H.
  destruct (create_order client _) as [so|e]; [|exact H].
  destruct H as [Hc H]. split; [exact Hc|].
  destruct (post_order client so "GTC"); exact H.
Qed.

(** X12: Config.validate raises its ValueError exactly when a
    credential is empty or does not start with 0x, or
    MAX_BID_PRICE <= 0, or ORDER_SIZE <= 0; it changes no state. *)
Theorem X12_validate_raises_iff cfg st :
  ((exists msg, fst (validate cfg st) = Raise (ValueError msg)) <->
   credential_ok (PRIVATE_KEY cfg) = false \/
   credential_ok (FUNDER_ADDRESS cfg) = false \/
   float_le_0 (MAX_BID_PRICE cfg) = true \/
   float_le_0 (ORDER_SIZE cfg) = true) /\
  snd (validate cfg st) = st.
Proof.
  split; [apply validate_raises_iff|]. rewrite validate_run. reflexivity.
Qed.

(** X13: Config.validate reports all the failed checks together, one
    message for each: the two credentials, the price, the size. *)
Theorem X13_validate_reports_every_failure cfg :
  List.length (validate_errors cfg)
  = ((if credential_ok (PRIVATE_KEY cfg) then 0 else 1)
     + (if credential_ok (FUNDER_ADDRESS cfg) then 0 else 1)
     + (if float_le_0 (MAX_BID_PRICE cfg) then 1 else 0)
     + (if float_le_0 (ORDER_SIZE cfg) then 1 else 0))%nat.
Proof.
  unfold validate_errors, credential_ok.
  destruct (is_empty (PRIVATE_KEY cfg)), (startswith (PRIVATE_KEY cfg) "0x"),
    (is_empty (FUNDER_ADDRESS cfg)), (startswith (FUNDER_ADDRESS cfg) "0x"),
    (float_le_0 (MAX_BID_PRICE cfg)), (float_le_0 (ORDER_SIZE cfg));
    reflexivity.
Qed.

(** X14: when a check of Config.validate fails, main exits with status
    1 and has made no call on the client. *)
Theorem X14_main_stops_on_configuration_error lib cfg args st :
  credential_ok (PRIVATE_KEY cfg) = false \/
  credential_ok (FUNDER_ADDRESS cfg) = false \/
  float_le_0 (MAX_BID_PRICE cfg) = true \/
  float_le_0 (ORDER_SIZE cfg) = true ->
  fst (main lib cfg args st) = Return 1 /\
  exists out,
    log (snd (main lib cfg args st)) = log st ++ out /\
    calls out = [].
Proof.
  intros H.
  assert (Herr : validate_errors cfg <> []).
  { intros E. apply validate_errors_nil in E as (H1 & H2 & H3 & H4).
    destruct H as [H|[H|[H|H]]]; congruence. }
  destruct (main_run_at lib cfg args st) as (out & code & Hl & Hr & _ & Hv & _).
  destruct (Hv Herr) as [-> Hc]. split; [exact Hr|]. eauto.
Qed.

Lemma X14_witness :
  fst (main sample_library
            (mkConfig "https://clob.polymarket.com" 137 "" "0x02"
                      f_0_05 (float_finite false 50 (-1)) true)
            sample_args st0) = Return 1 /\
  exists out,
    log (snd (main sample_library
                   (mkConfig "https://clob.polymarket.com" 137 "" "0x02"
                             f_0_05 (float_finite false 50 (-1)) true)
                   sample_args st0)) = log st0 ++ out /\
    calls out = [].
Proof.
  apply (X14_main_stops_on_configuration_error sample_library
           (mkConfig "https://clob.polymarket.com" 137 "" "0x02"
                     f_0_05 (float_finite false 50 (-1)) true)
           sample_args st0).
  left. reflexivity.
Defined.

(* ================================================================== *)
(** ** The two rejections of calculate_new_bid                         *)
(* ================================================================== *)

Lemma silent_ret {A} (a : A) : silent (ret a).
Proof. intros st. reflexivity. Qed.

Lemma silent_raise_error s : silent (raise_error s).
Proof. intros st. unfold raise_error. destruct (traps s); reflexivity. Qed.

Lemma silent_bind {A B} (m : M A) (f : A -> M B) :
  silent m -> (forall a, silent (f a)) -> silent (bind m f).
Proof.
  intros Hm Hf st. rewrite bind_snd.
  destruct (fst (m st)); [rewrite Hf|]; apply Hm.
Qed.

Lemma silent_when b m : silent m -> silent (when b m).
Proof. intros H. destruct b; [exact H | apply silent_ret]. Qed.

Lemma silent_if {A} (b : bool) (m1 m2 : M A) :
  silent m1 -> silent m2 -> silent (if b then m1 else m2).
Proof. destruct b; auto. Qed.

Ltac silent_step :=
  match goal with
  | |- silent (bind _ _) => apply silent_bind; [ | intros ? ]
  | |- silent (if _ then _ else _) => apply silent_if
  | |- silent (when _ _) => apply silent_when
  | |- silent (match ?x with _ => _ end) => destruct x
  | |- silent (ret _) => apply silent_ret
  | |- silent (raise_error _) => apply silent_raise_error
  end.

Lemma silent_Decimal_fix d : silent (Decimal_fix d).
Proof. unfold Decimal_fix. destruct d; repeat silent_step. Qed.

Lemma silent_Decimal_add a b : silent (Decimal_add a b).
Proof.
  unfold Decimal_add, check_nans.
  destruct a as [s1 c1 e1|s1|[|]], b as [s2 c2 e2|s2|[|]];
    repeat first [ apply silent_Decimal_fix | silent_step ].
Qed.

Lemma silent_Decimal_quantize a b r : silent (Decimal_quantize a b r).
Proof.
  unfold Decimal_quantize, check_nans.
  destruct a as [s1 c1 e1|s1|[|]], b as [s2 c2 e2|s2|[|]];
    repeat first [ apply silent_Decimal_fix | silent_step ].
Qed.

Lemma silent_Decimal_gt a b : silent (Decimal_gt a b).
Proof. unfold Decimal_gt. repeat silent_step. Qed.

Lemma silent_Decimal_ge a b : silent (Decimal_ge a b).
Proof. unfold Decimal_ge. repeat silent_step. Qed.

(** A silent computation whose result does not depend on the state. *)
Lemma emits_silent {A} (m : M A) :
  blind m -> silent m -> emits m (fun r o => o = [] /\ r = fst (m st0)).
Proof.
  intros Hb Hs st. exists []. rewrite app_nil_r. split; [apply Hs|].
  split; [reflexivity | apply Hb].
Qed.

(** X15: with a best bid that is not negative and a finite positive
    tick size, the second rejection of calculate_new_bid never fires:
    the line "Best bid ... already at or above max price" is never
    printed, because the candidate is above the best bid and is
    compared with max_price first. *)
Theorem X15_at_max_branch_is_dead b s2 ct et m st :
  Dle Dzero (Decimal_of_str b) ->
  Dlt Dzero (Finite s2 ct et) ->
  exists out,
    log (snd (calculate_new_bid b (Finite s2 ct et) m st)) = log st ++ out /\
    ~ In (Print [Lit "Best bid $"; PFloat b;
                 Lit " already at or above max price $"; PFloat m;
                 Lit ". Skipping."]) out.
Proof.
  intros Hb Ht. revert st.
  change (emits (calculate_new_bid b (Finite s2 ct et) m)
            (fun _ out =>
               ~ In (Print [Lit "Best bid $"; PFloat b;
                            Lit " already at or above max price $"; PFloat m;
                            Lit ". Skipping."]) out)).
  unfold calculate_new_bid. cbv zeta.
  eapply emits_bind;
    [apply emits_silent; [apply blind_Decimal_add | apply silent_Decimal_add] | |].
  { intros e o [-> _] []. }
  intros r o [-> Ha]. cbn [app].
  eapply emits_bind;
    [apply emits_silent; [apply blind_Decimal_quantize | apply silent_Decimal_quantize] | |].
  { intros e o [-> _] []. }
  intros q o [-> Hq]. cbn [app].
  apply emits_print_then.
  eapply emits_bind;
    [apply emits_silent; [apply blind_Decimal_gt | apply silent_Decimal_gt] | |].
  { intros e o [-> _] [F|[]]. discriminate F. }
  intros exceeds o [-> Hgt]. cbn [app].
  destruct exceeds.
  { apply emits_print_then. eapply emits_weaken; [apply emits_ret|].
    intros r' o [_ ->] [F|[F|[]]]; discriminate F. }
  eapply emits_bind;
    [apply emits_silent; [apply blind_Decimal_ge | apply silent_Decimal_ge] | |].
  { intros e o [-> _] [F|[]]. discriminate F. }
  intros at_max o [-> Hge]. cbn [app].
  destruct at_max.
  2:{ eapply emits_weaken; [apply emits_ret|].
      intros r' o [_ ->] [F|[]]. discriminate F. }
  exfalso.
  symmetry in Ha, Hq, Hgt, Hge.
  destruct (quantized_candidate_above _ _ _ _ _ _ _ _ Hb Ht Ha Hq) as [Hlt _].
  rewrite Decimal_gt_fst in Hgt. rewrite Decimal_ge_fst in Hge.
  destruct (isnan q || isnan (Decimal_of_str m)) eqn:N1; [discriminate Hgt|].
  apply orb_false_iff in N1 as [Nq Nm].
  destruct (isnan (Decimal_of_str b) || isnan (Decimal_of_str m)); [discriminate Hge|].
  assert (Hqm : Dle q (Decimal_of_str m)).
  { repeat split; try assumption. intros G. rewrite G in Hgt. discriminate Hgt. }
  destruct (Dlt_Dle_trans _ _ _ Hlt Hqm) as (_ & _ & L).
  rewrite L in Hge. discriminate Hge.
Qed.

Lemma X15_witness :
  exists out,
    log (snd (calculate_new_bid f_0_05 tick_0_001 f_0_05 st0)) = log st0 ++ out /\
    ~ In (Print [Lit "Best bid $"; PFloat f_0_05;
                 Lit " already at or above max price $"; PFloat f_0_05;
                 Lit ". Skipping."]) out.
Proof.
  apply (X15_at_max_branch_is_dead f_0_05 false 1 (-3) f_0_05 st0).
  - repeat split. vm_compute. discriminate.
  - repeat split.
Defined.

(** X16: initialize_client builds the client with the host, the key,
    the chain id and the funder of the configuration, derives the API
    credentials and installs exactly those; it returns the client only
    then.  A failure of the construction or of the derivation is passed
    on, and no credentials are installed. *)
Theorem X16_initialize_client_sequence lib cfg st :
  let new := NewClient (HOST cfg) (PRIVATE_KEY cfg) (CHAIN_ID cfg)
                       (FUNDER_ADDRESS cfg) in
  let run := initialize_client lib cfg st in
  exists out,
    log (snd run) = log st ++ out /\
    match new_ClobClient lib (HOST cfg) (PRIVATE_KEY cfg) (CHAIN_ID cfg)
                         (FUNDER_ADDRESS cfg) with
    | Raise e => fst run = Raise e /\ calls out = [new]
    | Return client =>
        match create_or_derive_api_creds client with
        | Raise e => fst run = Raise e /\ calls out = [new; CreateOrDeriveApiCreds]
        | Return creds =>
            fst run = Return client /\
            calls out = [new; CreateOrDeriveApiCreds; SetApiCreds creds]
        end
    end.
Proof.
  cbv zeta. destruct (initialize_client_calls lib cfg st) as (out & Hl & H).
  exists out. split; [exact Hl | exact H].
Qed.

(* ================================================================== *)
(** ** Config.display                                                  *)
(* ================================================================== *)

Lemma string_of_list_ascii_app l1 l2 :
  string_of_list_ascii (l1 ++ l2)
  = (string_of_list_ascii l1 ++ string_of_list_ascii l2)%string.
Proof. induction l1 as [|a l1 IH]; cbn; [reflexivity | rewrite IH; reflexivity]. Qed.

Lemma list_ascii_of_string_app s1 s2 :
  list_ascii_of_string (s1 ++ s2)
  = list_ascii_of_string s1 ++ list_ascii_of_string s2.
Proof. induction s1 as [|a s1 IH]; cbn; [reflexivity | rewrite IH; reflexivity]. Qed.

Lemma length_list_ascii_of_string s :
  List.length (list_ascii_of_string s) = String.length s.
Proof. induction s as [|a s IH]; cbn; [reflexivity | rewrite IH; reflexivity]. Qed.

Lemma length_string_of_list_ascii l :
  String.length (string_of_list_ascii l) = List.length l.
Proof. induction l as [|a l IH]; cbn; [reflexivity | rewrite IH; reflexivity]. Qed.

(** The last characters of a string are a suffix of it, of the length
    asked for when the string has that many. *)
Lemma last_chars_suffix n s :
  exists hidden,
    s = (hidden ++ last_chars n s)%string /\
    String.length (last_chars n s) = Nat.min n (String.length s).
Proof.
  unfold last_chars. set (l := list_ascii_of_string s).
  exists (string_of_list_ascii (firstn (List.length l - n) l)). split.
  - rewrite <- string_of_list_ascii_app, firstn_skipn.
    unfold l. symmetry. apply string_of_list_ascii_of_string.
  - rewrite length_string_of_list_ascii, length_skipn.
    unfold l. rewrite length_list_ascii_of_string. lia.
Qed.

Lemma last_chars_app hidden shown :
  last_chars (String.length shown) (hidden ++ shown) = shown.
Proof.
  unfold last_chars. rewrite list_ascii_of_string_app, length_app.
  rewrite !length_list_ascii_of_string.
  replace (String.length hidden + String.length shown - String.length shown)%nat
    with (List.length (list_ascii_of_string hidden) + 0)%nat
    by (rewrite length_list_ascii_of_string; lia).
  rewrite skipn_app, Nat.add_0_r, skipn_all.
  replace (List.length (list_ascii_of_string hidden)
           - List.length (list_ascii_of_string hidden))%nat with 0%nat by lia.
  cbn. apply string_of_list_ascii_of_string.
Qed.

(** X17: Config.display shows of the private key its last four
    characters and nothing else: what it prints for a key is the same
    for every other key that ends in the same four characters; the
    characters shown are a suffix of the key, four of them when the key
    has that many.  It only prints. *)
Theorem X17_display_masks_private_key cls st :
  (forall hidden hidden' shown,
     String.length shown = 4%nat ->
     PRIVATE_KEY cls = (hidden ++ shown)%string ->
     display (with_private_key cls (hidden' ++ shown)) st = display cls st) /\
  (exists hidden,
     PRIVATE_KEY cls = (hidden ++ last_chars 4 (PRIVATE_KEY cls))%string /\
     String.length (last_chars 4 (PRIVATE_KEY cls))
     = Nat.min 4 (String.length (PRIVATE_KEY cls))) /\
  fst (display cls st) = Return tt /\
  exists out, log (snd (display cls st)) = log st ++ out /\ calls out = [].
Proof.
  split; [|split; [apply last_chars_suffix|]].
  - intros hidden hidden' shown Hlen Hkey.
    assert (Hne : forall h, is_empty (h ++ shown) = false).
    { intros h. destruct h; [|reflexivity]. destruct shown; [discriminate Hlen|reflexivity]. }
    unfold display. cbn [PRIVATE_KEY FUNDER_ADDRESS HOST CHAIN_ID MAX_BID_PRICE
                         ORDER_SIZE DRY_RUN with_private_key].
    rewrite Hkey, !Hne. rewrite <- Hlen, !last_chars_app. reflexivity.
  - unfold display, print, emit, bind, ret. cbn. split; [reflexivity|].
    eexists. rewrite <- !app_assoc. cbn [app]. split; reflexivity.
Qed.

(* ================================================================== *)
(** ** helpers/markets.py: the tokens of a market                      *)
(* ================================================================== *)

Lemma string_get_Some s : forall i,
  (i < String.length s)%nat -> String.get i s <> None.
Proof.
  induction s as [|c s IH]; intros i H; cbn in H; [lia|].
  destruct i as [|i]; cbn; [discriminate|]. apply IH. lia.
Qed.

(** A subscript below the length finds an item, or fails for another
    reason than the index. *)
Lemma getitem_guarded v n i :
  markets.len v = inl n -> (i < n)%nat ->
  markets.getitem v i <> inr markets.IndexError.
Proof.
  destruct v as [| | | |s|l|d]; cbn; intros H Hi; try discriminate H;
    injection H as <-.
  - destruct (String.get i s) eqn:E; [discriminate|].
    exfalso. exact (string_get_Some s i Hi E).
  - destruct (nth_error l i) eqn:E; [discriminate|].
    apply nth_error_None in E. lia.
  - discriminate.
Qed.

Lemma to_float_not_IndexError rd lib v :
  markets.to_float rd lib v <> inr markets.IndexError.
Proof.
  destruct v as [|b|n|x|s|l|d]; cbn; try discriminate.
  - destruct (markets.float_of_int rd n); discriminate.
  - destruct (float_of_string lib s); discriminate.
Qed.

Lemma len_not_IndexError v : markets.len v <> inr markets.IndexError.
Proof. destruct v; discriminate. Qed.

Lemma price_at_not_IndexError rd lib prices i :
  markets.price_at rd lib prices i <> inr markets.IndexError.
Proof.
  unfold markets.price_at.
  destruct (markets.len prices) as [n|e] eqn:Ln;
    [|intros H; injection H as ->; exact (len_not_IndexError _ Ln)].
  destruct (i <? n)%nat eqn:Hi; [|discriminate].
  apply Nat.ltb_lt in Hi.
  destruct (markets.getitem prices i) as [v|e] eqn:G.
  - destruct (markets.to_float rd lib v) as [x|e] eqn:F; [discriminate|].
    intros H; injection H as ->. exact (to_float_not_IndexError _ _ _ F).
  - intros H; injection H as ->. exact (getitem_guarded _ _ _ Ln Hi G).
Qed.

Lemma token_id_at_not_IndexError token_ids i :
  markets.token_id_at token_ids i <> inr markets.IndexError.
Proof.
  unfold markets.token_id_at.
  destruct (markets.len token_ids) as [m|e] eqn:Lm;
    [|intros H; injection H as ->; exact (len_not_IndexError _ Lm)].
  destruct (i <? m)%nat eqn:Hi; [|discriminate].
  apply Nat.ltb_lt in Hi. exact (getitem_guarded _ _ _ Lm Hi).
Qed.

Lemma new_token_not_IndexError rd lib prices token_ids i o :
  markets.new_token rd lib prices token_ids i o <> inr markets.IndexError.
Proof.
  unfold markets.new_token.
  destruct (markets.price_at rd lib prices i) as [p|e] eqn:P;
    [|intros H; injection H as ->; exact (price_at_not_IndexError _ _ _ _ P)].
  destruct (markets.token_id_at token_ids i) as [t|e] eqn:T; [discriminate|].
  intros H; injection H as ->. exact (token_id_at_not_IndexError _ _ T).
Qed.

Lemma for_outcomes_not_IndexError rd lib prices token_ids : forall os i acc,
  snd (markets.for_outcomes rd lib prices token_ids i os acc)
  <> Some markets.IndexError.
Proof.
  induction os as [|o os IH]; intros i acc; cbn; [discriminate|].
  destruct (markets.new_token rd lib prices token_ids i o) as [t|e] eqn:E.
  - apply IH.
  - cbn. intros H; injection H as ->. exact (new_token_not_IndexError _ _ _ _ _ _ E).
Qed.

Lemma loads_not_IndexError rd v : markets.loads rd v <> inr markets.IndexError.
Proof.
  destruct v as [| | | |s| |]; cbn; try discriminate.
  destruct (markets.json_loads rd s); discriminate.
Qed.

Lemma iterate_not_IndexError v : markets.iterate v <> inr markets.IndexError.
Proof. destruct v; discriminate. Qed.

(** X18: inside the try statement of parse_market_tokens no IndexError
    can arise: each subscript is taken only below the length measured
    just before it.  Of the exceptions the except clause names,
    IndexError is never the one that ends the loop. *)
Theorem X18_parse_market_tokens_no_IndexError rd lib market :
  snd (markets.parse_body rd lib market) <> Some markets.IndexError.
Proof.
  unfold markets.parse_body.
  destruct (markets.loads rd (markets.get market "outcomes" _)) as [os|e] eqn:L1;
    [|cbn; intros H; injection H as ->; exact (loads_not_IndexError _ _ L1)].
  destruct (markets.loads rd (markets.get market "outcomePrices" _)) as [ps|e] eqn:L2;
    [|cbn; intros H; injection H as ->; exact (loads_not_IndexError _ _ L2)].
  destruct (markets.loads rd (markets.get market "clobTokenIds" _)) as [ts|e] eqn:L3;
    [|cbn; intros H; injection H as ->; exact (loads_not_IndexError _ _ L3)].
  destruct (markets.iterate os) as [items|e] eqn:I;
    [|cbn; intros H; injection H as ->; exact (iterate_not_IndexError _ I)].
  apply for_outcomes_not_IndexError.
Qed.

Lemma price_at_list rd lib ps i :
  markets.price_at rd lib (markets.JList ps) i =
  match nth_error ps i with
  | Some v => match markets.to_float rd lib v with
              | inl x => inl (Some x)
              | inr e => inr e
              end
  | None => inl None
  end.
Proof.
  unfold markets.price_at. cbn [markets.len markets.getitem].
  destruct (i <? List.length ps)%nat eqn:Hi.
  - apply Nat.ltb_lt in Hi.
    destruct (nth_error ps i) eqn:E; [reflexivity|].
    apply nth_error_None in E. lia.
  - apply Nat.ltb_ge in Hi. apply nth_error_None in Hi.
    rewrite Hi. reflexivity.
Qed.

Lemma token_id_at_list ts i :
  markets.token_id_at (markets.JList ts) i = inl (nth i ts markets.JNull).
Proof.
  unfold markets.token_id_at. cbn [markets.len markets.getitem].
  destruct (i <? List.length ts)%nat eqn:Hi.
  - apply Nat.ltb_lt in Hi.
    destruct (nth_error ts i) eqn:E.
    + rewrite (nth_error_nth _ _ _ E). reflexivity.
    + apply nth_error_None in E. lia.
  - apply Nat.ltb_ge in Hi. rewrite nth_overflow by exact Hi. reflexivity.
Qed.

(** The loop over the outcomes, when prices and token ids are lists:
    what it appends, and where it stops. *)
Lemma for_outcomes_lists rd lib ps ts : forall rest i acc tokens exc,
  markets.for_outcomes rd lib (markets.JList ps) (markets.JList ts) i rest acc
  = (tokens, exc) ->
  exists new, tokens = acc ++ new /\
    (forall j t, nth_error new j = Some t ->
       nth_error rest j = Some (markets.tk_outcome t) /\
       markets.tk_token_id t = nth (i + j) ts markets.JNull /\
       markets.price_at rd lib (markets.JList ps) (i + j)
       = inl (markets.tk_price t)) /\
    match exc with
    | None => List.length new = List.length rest
    | Some e => (List.length new < List.length rest)%nat /\
                markets.price_at rd lib (markets.JList ps) (i + List.length new)
                = inr e
    end.
Proof.
  induction rest as [|o rest IH]; intros i acc tokens exc; cbn.
  - intros H; injection H as <- <-. exists []. rewrite app_nil_r.
    split; [reflexivity|]. split; [|reflexivity].
    intros [|j] t H; discriminate H.
  - unfold markets.new_token. rewrite token_id_at_list.
    destruct (markets.price_at rd lib (markets.JList ps) i) as [p|e] eqn:P.
    + intros H. apply IH in H as (new & -> & Hn & Hx).
      exists (markets.mkToken o p (nth i ts markets.JNull) :: new).
      rewrite <- app_assoc. split; [reflexivity|]. split.
      * intros [|j] t Ht; cbn in Ht.
        -- injection Ht as <-. cbn. rewrite Nat.add_0_r. auto.
        -- apply Hn in Ht. rewrite Nat.add_succ_r. exact Ht.
      * destruct exc as [e|]; cbn [List.length].
        -- rewrite Nat.add_succ_r. destruct Hx as [Hl Hp]. split; [lia|exact Hp].
        -- lia.
    + intros H; injection H as <- <-. exists []. rewrite app_nil_r.
      split; [reflexivity|]. split.
      * intros [|j] t H; discriminate H.
      * cbn. rewrite Nat.add_0_r. split; [lia|exact P].
Qed.

(** [parse_market_tokens] on a market whose fields hold lists. *)
Lemma parse_body_lists rd lib market os ps ts :
  markets.lists_of rd market os ps ts ->
  markets.parse_body rd lib market
  = markets.for_outcomes rd lib (markets.JList ps) (markets.JList ts) 0 os [].
Proof.
  intros (H1 & H2 & H3). unfold markets.parse_body.
  rewrite H1, H2, H3. reflexivity.
Qed.

Lemma to_float_errors rd lib v e :
  markets.to_float rd lib v = inr e ->
  (markets.handled e = true ->
   exists s, v = markets.JStr s /\ float_of_string lib s = None) /\
  (markets.handled e = true <-> e = markets.ValueError).
Proof.
  destruct v as [|b|n|x|s|l|d]; cbn; intros H; try discriminate H.
  - injection H as <-. split; [discriminate|]. split; discriminate.
  - destruct (markets.float_of_int rd n); [discriminate|]. injection H as <-.
    split; [discriminate|]. split; discriminate.
  - destruct (float_of_string lib s) eqn:F; [discriminate|]. injection H as <-.
    split; [intros _; exists s; auto|]. split; reflexivity.
  - injection H as <-. split; [discriminate|]. split; discriminate.
  - injection H as <-. split; [discriminate|]. split; discriminate.
Qed.

Lemma price_at_list_error rd lib ps i e :
  markets.price_at rd lib (markets.JList ps) i = inr e ->
  exists v, nth_error ps i = Some v /\ markets.to_float rd lib v = inr e.
Proof.
  rewrite price_at_list. destruct (nth_error ps i) as [v|]; [|discriminate].
  destruct (markets.to_float rd lib v) as [x|e'] eqn:F; [discriminate|].
  intros H; injection H as <-. exists v. auto.
Qed.

(** X19: when the three fields of a market hold JSON lists, the
    tokens parse_market_tokens returns stand for the first outcomes, in
    order: token i carries outcome i, token id i (None past the end of
    the ids) and float(prices[i]) (None past the end of the prices).
    Outcomes are missing at the end only when the price at the first
    missing position is a string that float() does not read. *)
Theorem X19_parse_market_tokens_positional rd lib market os ps ts tokens :
  markets.lists_of rd market os ps ts ->
  markets.parse_market_tokens rd lib market = inl tokens ->
  (List.length tokens <= List.length os)%nat /\
  (forall i t, nth_error tokens i = Some t ->
     nth_error os i = Some (markets.tk_outcome t) /\
     markets.tk_token_id t = nth i ts markets.JNull /\
     match nth_error ps i with
     | Some v => exists x, markets.to_float rd lib v = inl x /\
                           markets.tk_price t = Some x
     | None => markets.tk_price t = None
     end) /\
  ((List.length tokens < List.length os)%nat ->
     exists s, nth_error ps (List.length tokens) = Some (markets.JStr s) /\
               float_of_string lib s = None).
Proof.
  intros HL. unfold markets.parse_market_tokens.
  rewrite (parse_body_lists _ lib _ _ _ _ HL).
  destruct (markets.for_outcomes _ _ _ _ _ _ _) as [tk exc] eqn:E.
  apply for_outcomes_lists in E as (new & -> & Hn & Hx). cbn [app] in *.
  assert (Hpos : forall i t, nth_error new i = Some t ->
     nth_error os i = Some (markets.tk_outcome t) /\
     markets.tk_token_id t = nth i ts markets.JNull /\
     match nth_error ps i with
     | Some v => exists x, markets.to_float rd lib v = inl x /\
                           markets.tk_price t = Some x
     | None => markets.tk_price t = None
     end).
  { intros i t Ht. apply Hn in Ht as (H1 & H2 & H3). cbn [Nat.add] in H2, H3.
    split; [exact H1|]. split; [exact H2|].
    rewrite price_at_list in H3. destruct (nth_error ps i) as [v|].
    - destruct (markets.to_float rd lib v) as [x|e]; [|discriminate].
      injection H3 as H3. exists x. auto.
    - injection H3 as H3. auto. }
  destruct exc as [e|].
  - destruct Hx as [Hl Hp]. cbn [Nat.add] in Hp.
    destruct (markets.handled e) eqn:Hh; [|discriminate].
    intros H; injection H as <-.
    split; [lia|]. split; [exact Hpos|]. intros _.
    apply price_at_list_error in Hp as (v & Hv & F).
    destruct (proj1 (to_float_errors _ _ _ _ F) Hh) as (s & -> & Hs).
    exists s. auto.
  - intros H; injection H as <-.
    split; [lia|]. split; [exact Hpos|]. lia.
Qed.

Lemma X19_witness :
  (List.length [markets.mkToken (markets.JStr "Yes") (Some f_0_01) (markets.JStr "111")]
   <= List.length [markets.JStr "Yes"; markets.JStr "No"])%nat /\
  (forall i t,
     nth_error [markets.mkToken (markets.JStr "Yes") (Some f_0_01) (markets.JStr "111")] i
     = Some t ->
     nth_error [markets.JStr "Yes"; markets.JStr "No"] i = Some (markets.tk_outcome t) /\
     markets.tk_token_id t
     = nth i [markets.JStr "111"; markets.JStr "222"] markets.JNull /\
     match nth_error [markets.JStr "0.01"; markets.JStr "n/a"] i with
     | Some v => exists x, markets.to_float sample_readers price_library v = inl x /\
                           markets.tk_price t = Some x
     | None => markets.tk_price t = None
     end) /\
  ((List.length [markets.mkToken (markets.JStr "Yes") (Some f_0_01) (markets.JStr "111")]
    < List.length [markets.JStr "Yes"; markets.JStr "No"])%nat ->
     exists s,
       nth_error [markets.JStr "0.01"; markets.JStr "n/a"]
         (List.length [markets.mkToken (markets.JStr "Yes") (Some f_0_01) (markets.JStr "111")])
       = Some (markets.JStr s) /\
       float_of_string price_library s = None).
Proof.
  apply (X19_parse_market_tokens_positional sample_readers price_library
           market_unreadable).
  - repeat split; reflexivity.
  - reflexivity.
Defined.

(** X20: when the three fields hold JSON lists and float() reads every
    price that stands beside an outcome, parse_market_tokens returns
    one token for each outcome. *)
Theorem X20_parse_market_tokens_all_readable rd lib market os ps ts :
  markets.lists_of rd market os ps ts ->
  (forall i v, (i < List.length os)%nat -> nth_error ps i = Some v ->
     exists x, markets.to_float rd lib v = inl x) ->
  exists tokens,
    markets.parse_market_tokens rd lib market = inl tokens /\
    List.length tokens = List.length os.
Proof.
  intros HL Hr. unfold markets.parse_market_tokens.
  rewrite (parse_body_lists _ lib _ _ _ _ HL).
  destruct (markets.for_outcomes _ _ _ _ _ _ _) as [tk exc] eqn:E.
  apply for_outcomes_lists in E as (new & -> & Hn & Hx). cbn [app] in *.
  destruct exc as [e|].
  - destruct Hx as [Hl Hp]. cbn [Nat.add] in Hp.
    apply price_at_list_error in Hp as (v & Hv & F).
    destruct (Hr _ _ Hl Hv) as [x Hx]. congruence.
  - exists new. auto.
Qed.

Lemma X20_witness :
  exists tokens,
    markets.parse_market_tokens sample_readers price_library sample_market
    = inl tokens /\
    List.length tokens = List.length [markets.JStr "Yes"; markets.JStr "No"].
Proof.
  apply (X20_parse_market_tokens_all_readable sample_readers price_library
           sample_market _ [markets.JStr "0.03"; markets.JStr "0.97"]
           [markets.JStr "111"; markets.JStr "222"]).
  - repeat split; reflexivity.
  - intros [|[|i]] v Hi Hv; cbn in Hi, Hv; [| |lia];
      injection Hv as <-; eexists; reflexivity.
Defined.

(** X21: the first price beside an outcome that float() does not read
    decides the result.  If float() raised ValueError there,
    parse_market_tokens returns the tokens before that position and
    drops the rest without a word; any other exception of float()
    (TypeError for null, OverflowError) leaves parse_market_tokens
    uncaught. *)
Theorem X21_parse_market_tokens_first_unreadable_price
    rd lib market os ps ts k v e :
  markets.lists_of rd market os ps ts ->
  (k < List.length os)%nat ->
  nth_error ps k = Some v ->
  markets.to_float rd lib v = inr e ->
  (forall i u, (i < k)%nat -> nth_error ps i = Some u ->
     exists x, markets.to_float rd lib u = inl x) ->
  match markets.parse_market_tokens rd lib market with
  | inl tokens => e = markets.ValueError /\ List.length tokens = k
  | inr e' => e' = e /\ e <> markets.ValueError
  end.
Proof.
  intros HL Hk Hv F Hr. unfold markets.parse_market_tokens.
  rewrite (parse_body_lists _ lib _ _ _ _ HL).
  destruct (markets.for_outcomes _ _ _ _ _ _ _) as [tk exc] eqn:E.
  apply for_outcomes_lists in E as (new & -> & Hn & Hx). cbn [app] in *.
  assert (Hat : forall t, nth_error new k = Some t -> False).
  { intros t Ht. apply Hn in Ht as (_ & _ & H3). cbn [Nat.add] in H3.
    rewrite price_at_list, Hv, F in H3. discriminate H3. }
  destruct exc as [e'|].
  - destruct Hx as [Hl Hp]. cbn [Nat.add] in Hp.
    apply price_at_list_error in Hp as (u & Hu & Fu).
    assert (Hlen : List.length new = k).
    { destruct (Nat.lt_trichotomy (List.length new) k) as [Lt|[Eq|Gt]].
      - destruct (Hr _ _ Lt Hu) as [x Hx]. congruence.
      - exact Eq.
      - exfalso. destruct (nth_error new k) as [t|] eqn:Ht.
        + exact (Hat t eq_refl).
        + apply nth_error_None in Ht. lia. }
    rewrite Hlen in Hu. rewrite Hv in Hu. injection Hu as <-.
    rewrite F in Fu. injection Fu as <-.
    pose proof (proj2 (to_float_errors _ _ _ _ F)) as Hh.
    destruct (markets.handled e) eqn:He.
    + split; [apply Hh; reflexivity | exact Hlen].
    + split; [reflexivity|]. intros ->. destruct Hh as [_ Hh].
      specialize (Hh eq_refl). discriminate Hh.
  - exfalso. destruct (nth_error new k) as [t|] eqn:Ht.
    + exact (Hat t eq_refl).
    + apply nth_error_None in Ht. lia.
Qed.

Lemma X21_witness :
  match markets.parse_market_tokens sample_readers price_library market_null with
  | inl tokens => markets.TypeError = markets.ValueError /\ List.length tokens = 0%nat
  | inr e' => e' = markets.TypeError /\ markets.TypeError <> markets.ValueError
  end.
Proof.
  apply (X21_parse_market_tokens_first_unreadable_price sample_readers
           price_library market_null [markets.JStr "Yes"; markets.JStr "No"]
           [markets.JNull; markets.JStr "0.97"]
           [markets.JStr "111"; markets.JStr "222"] 0%nat markets.JNull).
  - repeat split; reflexivity.
  - cbn. lia.
  - reflexivity.
  - reflexivity.
  - intros i u Hi. lia.
Defined.

(* ================================================================== *)
(** ** helpers/markets.py: the low-priced outcomes                     *)
(* ================================================================== *)

Lemma float_le_true x y :
  markets.float_le x y = true <->
  x <> float_nan /\ y <> float_nan /\
  Decimal_cmp (Decimal_of_str x) (Decimal_of_str y) <> Gt.
Proof.
  unfold markets.float_le.
  destruct x as [s1 c1 e1|s1|], y as [s2 c2 e2|s2|];
    try (split; [intros H; discriminate H | intros (H1 & H2 & _); congruence]);
    destruct (Decimal_cmp _ _);
    (split; [intros H; try discriminate H; repeat split; discriminate
            | intros (_ & _ & H); try reflexivity; congruence]).
Qed.

Lemma float_gt_0_not_nan x : float_gt_0 x = true -> x <> float_nan.
Proof. destruct x; intros H; [discriminate|discriminate|discriminate H]. Qed.

Lemma float_le_trans x y z :
  markets.float_le x y = true -> markets.float_le y z = true ->
  markets.float_le x z = true.
Proof.
  intros H1 H2. apply float_le_true in H1 as (Nx & Ny & H1).
  apply float_le_true in H2 as (_ & Nz & H2). apply float_le_true.
  repeat split; try assumption.
  apply (Decimal_cmp_trans _ _ _ (isnan_Decimal_of_str x Nx)
           (isnan_Decimal_of_str y Ny) (isnan_Decimal_of_str z Nz) H1 H2).
Qed.

(** On floats that are no nan, [not (y < x)] is [x <= y]. *)
Lemma float_le_of_not_gt x y :
  x <> float_nan -> y <> float_nan ->
  float_gt x y = false -> markets.float_le x y = true.
Proof.
  intros Nx Ny H. apply float_le_true. repeat split; try assumption.
  intros G. assert (float_gt x y = true) by (apply float_gt_true; auto).
  congruence.
Qed.

Lemma float_le_of_gt x y : float_gt x y = true -> markets.float_le y x = true.
Proof.
  intros H. apply float_gt_true in H as (Nx & Ny & H). apply float_le_true.
  repeat split; try assumption.
  rewrite (Decimal_cmp_antisym (Decimal_of_str x)), H. discriminate.
Qed.

Lemma In_insert x r : forall l, In r (markets.insert x l) <-> r = x \/ In r l.
Proof.
  induction l as [|y l IH]; cbn.
  - intuition congruence.
  - destruct (float_gt (markets.price x) (markets.price y)); cbn.
    + rewrite IH. intuition congruence.
    + intuition congruence.
Qed.

Lemma In_sort_by_price r : forall l, In r (markets.sort_by_price l) <-> In r l.
Proof.
  induction l as [|x l IH]; cbn; [reflexivity|].
  rewrite In_insert, IH. intuition congruence.
Qed.

Lemma insert_sorted x : forall l,
  markets.price x <> float_nan ->
  Forall (fun y => markets.price y <> float_nan) l ->
  StronglySorted (fun a b => markets.float_le (markets.price a) (markets.price b) = true) l ->
  StronglySorted (fun a b => markets.float_le (markets.price a) (markets.price b) = true)
    (markets.insert x l).
Proof.
  intros l Nx. induction l as [|y l IH]; intros Nl Hs; cbn.
  - constructor; constructor.
  - inversion Nl as [|? ? Ny Nl']; subst.
    inversion Hs as [|? ? Hs' Hy]; subst.
    destruct (float_gt (markets.price x) (markets.price y)) eqn:G.
    + constructor; [apply IH; assumption|].
      apply Forall_forall. intros r Hr. apply In_insert in Hr as [->|Hr].
      * apply float_le_of_gt. exact G.
      * rewrite Forall_forall in Hy. apply Hy. exact Hr.
    + pose proof (float_le_of_not_gt _ _ Nx Ny G) as Hxy.
      constructor; [exact Hs|].
      constructor; [exact Hxy|].
      rewrite Forall_forall in Hy |- *. intros r Hr.
      eapply float_le_trans; [exact Hxy | apply Hy; exact Hr].
Qed.

Lemma sort_by_price_sorted : forall l,
  Forall (fun y => markets.price y <> float_nan) l ->
  StronglySorted (fun a b => markets.float_le (markets.price a) (markets.price b) = true)
    (markets.sort_by_price l).
Proof.
  induction l as [|x l IH]; intros Nl; [constructor|].
  inversion Nl as [|? ? Nx Nl']; subst.
  change (markets.sort_by_price (x :: l))
    with (markets.insert x (markets.sort_by_price l)).
  apply insert_sorted; [exact Nx | | apply IH; exact Nl'].
  apply Forall_forall. intros r Hr. apply (proj1 (In_sort_by_price _ _)) in Hr.
  rewrite Forall_forall in Nl'. apply Nl'. exact Hr.
Qed.

(** What the inner loop adds for the tokens of one market. *)
Lemma In_for_tokens max_price market r : forall tokens acc,
  In r (markets.for_tokens max_price market tokens acc) <->
  In r acc \/
  exists t, In t tokens /\
    markets.tk_price t = Some (markets.price r) /\
    float_gt_0 (markets.price r) = true /\
    markets.float_le (markets.price r) max_price = true /\
    r = markets.mkEntry (markets.get market "question" markets.JNull)
          (markets.tk_outcome t) (markets.tk_token_id t) (markets.price r)
          (markets.get market "conditionId" markets.JNull).
Proof.
  induction tokens as [|t tokens IH]; intros acc; cbn.
  - split; [auto | intros [H|(t & [] & _)]; exact H].
  - rewrite IH. split.
    + intros [H|(t' & Ht' & H)]; [|right; exists t'; auto].
      destruct (markets.tk_price t) as [p|] eqn:P; [|auto].
      destruct (float_gt_0 p && markets.float_le p max_price) eqn:C; [|auto].
      apply in_app_or in H as [H|[<-|[]]]; [auto|].
      apply andb_true_iff in C as [C1 C2].
      right. exists t. cbn. auto 10.
    + intros [H|(t' & [<-|Ht'] & P & C1 & C2 & E)].
      * left. destruct (markets.tk_price t) as [p|]; [|exact H].
        destruct (float_gt_0 p && markets.float_le p max_price); [|exact H].
        apply in_or_app. auto.
      * left. rewrite P, C1, C2. cbn. apply in_or_app. right. left.
        symmetry. exact E.
      * right. exists t'. auto 10.
Qed.

(** The loop over the markets: the entries it collects when every
    market parses, the exception of the first market that does not. *)
Lemma for_markets_spec rd lib max_price : forall ms acc,
  match markets.for_markets rd lib max_price ms acc with
  | inl results =>
      forall r, In r results <->
        In r acc \/
        exists market tokens t,
          In market ms /\
          markets.parse_market_tokens rd lib market = inl tokens /\
          In t tokens /\
          markets.tk_price t = Some (markets.price r) /\
          float_gt_0 (markets.price r) = true /\
          markets.float_le (markets.price r) max_price = true /\
          r = markets.mkEntry (markets.get market "question" markets.JNull)
                (markets.tk_outcome t) (markets.tk_token_id t) (markets.price r)
                (markets.get market "conditionId" markets.JNull)
  | inr e =>
      exists before market after,
        ms = before ++ market :: after /\
        Forall (fun m => exists tokens,
                  markets.parse_market_tokens rd lib m = inl tokens) before /\
        markets.parse_market_tokens rd lib market = inr e
  end.
Proof.
  induction ms as [|m ms IH]; intros acc; cbn.
  - intros r. split; [auto | intros [H|(? & ? & ? & [] & _)]; exact H].
  - destruct (markets.parse_market_tokens rd lib m) as [tokens|e] eqn:P.
    + specialize (IH (markets.for_tokens max_price m tokens acc)).
      destruct (markets.for_markets rd lib max_price ms _) as [results|e].
      * intros r. rewrite IH, In_for_tokens. split.
        -- intros [[H|(t & Ht & H)]|(m' & tk' & t & Hm & H)].
           ++ auto.
           ++ right. exists m, tokens, t. auto 10.
           ++ right. exists m', tk', t. auto 10.
        -- intros [H|(m' & tk' & t & [<-|Hm] & P' & H)].
           ++ auto.
           ++ rewrite P in P'. injection P' as <-. left. right. exists t. exact H.
           ++ right. exists m', tk', t. auto 10.
      * destruct IH as (before & market & after & -> & Hb & He).
        exists (m :: before), market, after. split; [reflexivity|].
        split; [|exact He]. constructor; [exists tokens; exact P | exact Hb].
    + exists [], m, ms. split; [reflexivity|]. split; [constructor | exact P].
Qed.

Lemma for_markets_raises rd lib max_price market after e : forall before acc,
  Forall (fun m => exists tokens,
            markets.parse_market_tokens rd lib m = inl tokens) before ->
  markets.parse_market_tokens rd lib market = inr e ->
  markets.for_markets rd lib max_price (before ++ market :: after) acc = inr e.
Proof.
  induction before as [|m before IH]; intros acc Hb He; cbn.
  - rewrite He. reflexivity.
  - inversion Hb as [|? ? [tokens Hm] Hb']; subst. rewrite Hm. apply IH; assumption.
Qed.

(** X22: every entry find_low_price_markets returns has a price with
    0 < price <= max_price, and the entries are in ascending order of
    price. *)
Theorem X22_find_low_price_markets_sorted_in_range
    rd lib search_markets max_price limit results :
  markets.find_low_price_markets rd lib search_markets max_price limit
  = inl results ->
  Forall (fun r => float_gt_0 (markets.price r) = true /\
                   markets.float_le (markets.price r) max_price = true) results /\
  StronglySorted
    (fun a b => markets.float_le (markets.price a) (markets.price b) = true)
    results.
Proof.
  unfold markets.find_low_price_markets.
  pose proof (for_markets_spec rd lib max_price (search_markets limit) []) as S.
  destruct (markets.for_markets _ _ _ _ _) as [rs|e]; [|discriminate].
  intros H; injection H as <-.
  assert (R : Forall (fun r => float_gt_0 (markets.price r) = true /\
                   markets.float_le (markets.price r) max_price = true) rs).
  { apply Forall_forall. intros r Hr. apply S in Hr as [[]|Hr].
    destruct Hr as (m & tk & t & _ & _ & _ & _ & C1 & C2 & _). auto. }
  split.
  - apply Forall_forall. intros r Hr. apply (proj1 (In_sort_by_price _ _)) in Hr.
    rewrite Forall_forall in R. apply R. exact Hr.
  - apply sort_by_price_sorted. apply Forall_forall. intros r Hr.
    rewrite Forall_forall in R. apply float_gt_0_not_nan. apply R. exact Hr.
Qed.

Lemma X22_witness :
  Forall (fun r => float_gt_0 (markets.price r) = true /\
                   markets.float_le (markets.price r) f_0_05 = true)
    [markets.mkEntry (markets.JStr "Will it rain?") (markets.JStr "Yes")
       (markets.JStr "111") f_0_01 (markets.JStr "0xbb");
     markets.mkEntry (markets.JStr "Will it rain?") (markets.JStr "Yes")
       (markets.JStr "111") f_0_03 (markets.JStr "0xaa")] /\
  StronglySorted
    (fun a b => markets.float_le (markets.price a) (markets.price b) = true)
    [markets.mkEntry (markets.JStr "Will it rain?") (markets.JStr "Yes")
       (markets.JStr "111") f_0_01 (markets.JStr "0xbb");
     markets.mkEntry (markets.JStr "Will it rain?") (markets.JStr "Yes")
       (markets.JStr "111") f_0_03 (markets.JStr "0xaa")].
Proof.
  apply (X22_find_low_price_markets_sorted_in_range sample_readers price_library
           (fun _ => [sample_market; market_unreadable]) f_0_05 20).
  vm_compute. reflexivity.
Defined.

(** X23: find_low_price_markets returns exactly the low-priced tokens:
    an entry is in the result if and only if it is built from a market
    of the search and one of that market's parsed tokens whose price is
    set and lies in 0 < price <= max_price. *)
Theorem X23_find_low_price_markets_complete
    rd lib search_markets max_price limit results :
  markets.find_low_price_markets rd lib search_markets max_price limit
  = inl results ->
  forall r, In r results <->
    exists market tokens t,
      In market (search_markets limit) /\
      markets.parse_market_tokens rd lib market = inl tokens /\
      In t tokens /\
      markets.tk_price t = Some (markets.price r) /\
      float_gt_0 (markets.price r) = true /\
      markets.float_le (markets.price r) max_price = true /\
      r = markets.mkEntry (markets.get market "question" markets.JNull)
            (markets.tk_outcome t) (markets.tk_token_id t) (markets.price r)
            (markets.get market "conditionId" markets.JNull).
Proof.
  unfold markets.find_low_price_markets.
  pose proof (for_markets_spec rd lib max_price (search_markets limit) []) as S.
  destruct (markets.for_markets _ _ _ _ _) as [rs|e]; [|discriminate].
  intros H; injection H as <-. intros r.
  rewrite In_sort_by_price, S. split; [intros [[]|H]; exact H | auto].
Qed.

Lemma X23_witness :
  In (markets.mkEntry (markets.JStr "Will it rain?") (markets.JStr "Yes")
        (markets.JStr "111") f_0_01 (markets.JStr "0xbb"))
     [markets.mkEntry (markets.JStr "Will it rain?") (markets.JStr "Yes")
        (markets.JStr "111") f_0_01 (markets.JStr "0xbb");
      markets.mkEntry (markets.JStr "Will it rain?") (markets.JStr "Yes")
        (markets.JStr "111") f_0_03 (markets.JStr "0xaa")] <->
  exists market tokens t,
    In market [sample_market; market_unreadable] /\
    markets.parse_market_tokens sample_readers price_library market = inl tokens /\
    In t tokens /\
    markets.tk_price t = Some f_0_01 /\
    float_gt_0 f_0_01 = true /\
    markets.float_le f_0_01 f_0_05 = true /\
    markets.mkEntry (markets.JStr "Will it rain?") (markets.JStr "Yes")
      (markets.JStr "111") f_0_01 (markets.JStr "0xbb")
    = markets.mkEntry (markets.get market "question" markets.JNull)
        (markets.tk_outcome t) (markets.tk_token_id t) f_0_01
        (markets.get market "conditionId" markets.JNull).
Proof.
  apply (X23_find_low_price_markets_complete sample_readers price_library
           (fun _ => [sample_market; market_unreadable]) f_0_05 20 _
           (eq_refl
              (inl [markets.mkEntry (markets.JStr "Will it rain?")
                      (markets.JStr "Yes") (markets.JStr "111") f_0_01
                      (markets.JStr "0xbb");
                    markets.mkEntry (markets.JStr "Will it rain?")
                      (markets.JStr "Yes") (markets.JStr "111") f_0_03
                      (markets.JStr "0xaa")]))
           (markets.mkEntry (markets.JStr "Will it rain?") (markets.JStr "Yes")
              (markets.JStr "111") f_0_01 (markets.JStr "0xbb"))).
Defined.

(** X24: find_low_price_markets raises exactly when parse_market_tokens
    raises on some market of the search, with the exception of the
    first such market: one market that does not parse loses the
    entries of all the others. *)
Theorem X24_find_low_price_markets_raises
    rd lib search_markets max_price limit e :
  markets.find_low_price_markets rd lib search_markets max_price limit = inr e <->
  exists before market after,
    search_markets limit = before ++ market :: after /\
    Forall (fun m => exists tokens,
              markets.parse_market_tokens rd lib m = inl tokens) before /\
    markets.parse_market_tokens rd lib market = inr e.
Proof.
  unfold markets.find_low_price_markets. split.
  - pose proof (for_markets_spec rd lib max_price (search_markets limit) []) as S.
    destruct (markets.for_markets _ _ _ _ _) as [rs|e']; [discriminate|].
    intros H; injection H as <-. exact S.
  - intros (before & market & after & -> & Hb & He).
    rewrite (for_markets_raises _ _ _ _ _ _ _ _ Hb He). reflexivity.
Qed.

Lemma X24_witness :
  markets.find_low_price_markets sample_readers price_library
    (fun _ => [sample_market; market_null]) f_0_05 20
  = inr markets.TypeError.
Proof.
  apply (proj2 (X24_find_low_price_markets_raises sample_readers price_library
                  (fun _ => [sample_market; market_null]) f_0_05 20
                  markets.TypeError)).
  exists [sample_market], market_null, []. split; [reflexivity|].
  split; [|reflexivity].
  constructor; [eexists; reflexivity | constructor].
Defined.
